(** * Trajectory re-extraction and MJCF model loading: a shallow embedding

    The development follows two source files of the repository:
    - [robocasa/scripts/dataset_states_to_obs.py]: the work dispatcher
      ([retrieve_new_index]), the worker ([extract_trajectory],
      [extract_multiple_trajectories_with_error],
      [extract_multiple_trajectories]), the writer ([write_traj_to_file]) and
      the driver ([dataset_states_to_obs_multiprocessing]);
    - [robocasa/utils/model_zoo/mjcf_obj.py]: [postprocess_model_xml] and the
      constructor of [MJCFObject].

    The simulator, the array library, the archive library and the XML parser
    are external collaborators: they appear as records of functions or as
    section variables.  Python exceptions are values of [exn]; a call that may
    raise returns an [outcome]. *)

From Stdlib Require Import ZArith Lia Ascii.
From stdpp Require Import base list strings.

Local Open Scope string_scope.
Local Open Scope list_scope.
Local Open Scope Z_scope.

(** ** Python values and exceptions *)

Inductive exn : Type :=
| IndexError
| KeyError
| AssertionError
| AttributeError
| ValueError
| TypeError
| SimulatorError
| QueueEmpty
| PyException (msg : string).

Inductive outcome (A : Type) : Type :=
| Ok (a : A)
| Raise (e : exn).

Arguments Ok {A} a.
Arguments Raise {A} e.

Definition obind {A B : Type} (c : outcome A) (k : A -> outcome B) : outcome B :=
  match c with
  | Ok a => k a
  | Raise e => Raise e
  end.

Declare Scope py_scope.
Delimit Scope py_scope with py.
Notation "'let*' x ':=' c 'in' k" := (obind c (fun x => k))
  (at level 10, x pattern, c at level 100, k at level 200) : py_scope.
Local Open Scope py_scope.

(** [l[i]] on a Python list or array: negative indices count from the end,
    anything out of range raises [IndexError]. *)
Definition py_getitem {A : Type} (l : list A) (i : Z) : outcome A :=
  let n := Z.of_nat (length l) in
  let j := if Z.ltb i 0 then i + n else i in
  if Z.ltb j 0 then Raise IndexError
  else match l !! Z.to_nat j with
       | Some a => Ok a
       | None => Raise IndexError
       end.

(** [l[:n]], with [n = None] for a slice that is not applied. *)
Definition py_slice_to {A : Type} (n : option Z) (l : list A) : list A :=
  match n with
  | None => l
  | Some k =>
      if Z.ltb k 0 then take (Z.to_nat (Z.of_nat (length l) + k)) l
      else take (Z.to_nat k) l
  end.

(** [needle in hay] on strings. *)
Fixpoint str_contains (needle hay : string) : bool :=
  if String.prefix needle hay then true
  else match hay with
       | EmptyString => false
       | String _ hay' => str_contains needle hay'
       end.

(** A [mapM] over [outcome]: the first exception ends the traversal. *)
Fixpoint omap {A B : Type} (f : A -> outcome B) (l : list A) : outcome (list B) :=
  match l with
  | [] => Ok []
  | a :: l' =>
      let* b := f a in
      let* bs := omap f l' in
      Ok (b :: bs)
  end.

(** ** The work dispatcher *)

(** The state shared between the processes: the queue of pending episode
    indices and the array of current assignments, one slot per worker
    ([multiprocessing.Array("i", num_processes)], a C [int] array). *)
Record Shared : Type := mkShared {
  work_queue : list Z;
  current_work_array : list Z
}.

(** Storing a Python integer in a C [int] slot keeps its low 32 bits. *)
Definition wrap32 (z : Z) : Z := (z + 2 ^ 31) mod 2 ^ 32 - 2 ^ 31.

(** [retrieve_new_index], executed as a whole under [lock].  The value [-1]
    signals the empty queue; [work_queue.get(False)] cannot raise
    [queue.Empty] once [empty()] has answered [False] under the lock, so that
    handler is the same [-1].  An assignment to a slot the array does not have
    raises [IndexError] after the index has left the queue. *)
Definition retrieve_new_index (process_num : nat) (s : Shared) : outcome Z * Shared :=
  match work_queue s with
  | [] => (Ok (-1), s)
  | tmp :: rest =>
      if decide (process_num < length (current_work_array s))%nat
      then (Ok tmp, mkShared rest (<[process_num := wrap32 tmp]> (current_work_array s)))
      else (Raise IndexError, mkShared rest (current_work_array s))
  end.

(** A run of claims, one per caller, in the order in which the callers take
    the lock. *)
Fixpoint claims (callers : list nat) (s : Shared) : list (outcome Z) * Shared :=
  match callers with
  | [] => ([], s)
  | p :: callers' =>
      let '(r, s1) := retrieve_new_index p s in
      let '(rs, s2) := claims callers' s1 in
      (r :: rs, s2)
  end.

(** ** Trajectories and the simulator *)

(** Command-line options read by the functions below. *)
Record Args : Type := mkArgs {
  arg_n : option Z;
  arg_done_mode : Z;
  arg_copy_rewards : bool;
  arg_copy_dones : bool;
  arg_include_next_obs : bool;
  arg_no_compress : bool;
  arg_num_procs : nat;
  arg_add_datagen_info : bool;
  arg_global_actions : bool;
  arg_dont_store_image : bool;
  arg_dont_store_depth : bool
}.

(** [TensorUtils.list_of_flat_dict_to_dict_of_list]: the per-step dictionaries
    become one dictionary of per-key lists, keys in order of first
    appearance.  Dictionaries are association lists in insertion order. *)
Fixpoint dict_append {V : Type} (k : string) (v : V) (dic : list (string * list V))
  : list (string * list V) :=
  match dic with
  | [] => [(k, [v])]
  | (k', vs) :: dic' =>
      if decide (k = k') then (k', vs ++ [v]) :: dic'
      else (k', vs) :: dict_append k v dic'
  end.

Definition list_of_flat_dict_to_dict_of_list {V : Type}
    (list_of_dict : list (list (string * V))) : list (string * list V) :=
  fold_left
    (fun dic d => fold_left (fun dic' kv => dict_append (fst kv) (snd kv) dic') d dic)
    list_of_dict [].

(** [del d[k]]: the first binding of [k] goes, [KeyError] when there is none. *)
Fixpoint dict_del {V : Type} (k : string) (d : list (string * V)) : outcome (list (string * V)) :=
  match d with
  | [] => Raise KeyError
  | (k', v) :: d' =>
      if decide (k = k') then Ok d'
      else let* r := dict_del k d' in Ok ((k', v) :: r)
  end.

Fixpoint dict_del_all {V : Type} (ks : list string) (d : list (string * V))
  : outcome (list (string * V)) :=
  match ks with
  | [] => Ok d
  | k :: ks' => let* d' := dict_del k d in dict_del_all ks' d'
  end.

(** [a[0]] on an array of the numerical library raises [IndexError] when the
    array has no first entry; [has_first a] tells whether [a] has one. *)
Class Indexable (A : Type) : Type := has_first : A -> bool.

(** A string held by [initial_state_dict]: the Python [str] that the worker
    reads from the archive or gets from [json.dumps], or the zero-dimensional
    array of dtype [<U] that [np.array] makes of a [str]. *)
Inductive text : Type :=
| Str (s : string)
| UArray (s : string).

Section Extractor.

(** Simulation states, actions, rewards, sensor readings and data-generation
    values are arrays of the numerical library; their contents are opaque,
    except that a state may have no first entry. *)
Context {State Action Reward Sensor Info : Type} `{!Indexable State}.

(** One observation value: an array, or a nested dictionary of arrays. *)
Inductive obs_value : Type :=
| Leaf (v : Sensor)
| Dict (d : list (string * Sensor)).

(** One entry of [traj["obs"]] after the conversion of lines 155-169. *)
Inductive obs_column : Type :=
| Column (vs : list obs_value)
| Nested (d : list (string * list Sensor)).

(** The dictionary handed to [env.reset_to] and kept as
    [traj["initial_state_dict"]]. *)
Record StateDict : Type := mkStateDict {
  sd_states : State;
  sd_model : option text;
  sd_ep_meta : option text
}.

(** The environment, as far as the extraction uses it.  [env_reset_to]
    loads a state (with the model and episode metadata when given) and
    returns the observation dictionary; the reward and the success flag are
    those of the state loaded last.  [env_get_ep_meta] is the text that
    [json.dumps] makes of [env.env.get_ep_meta()]. *)
Record Env : Type := mkEnv {
  env_reset : outcome unit;
  env_reset_to : StateDict -> outcome (list (string * obs_value));
  env_get_ep_meta : string;
  env_reward : State -> Reward;
  env_check_success : State -> bool;
  env_get_datagen_info : Action -> list (string * Info);
  env_global_actions : list Action -> list Action
}.

Record Traj : Type := mkTraj {
  obs : list (string * obs_column);
  next_obs : list obs_value;
  rewards : list Reward;
  dones : list Z;
  actions : list Action;
  states : list State;
  initial_state_dict : StateDict;
  datagen_info : list (string * list Info);
  global_actions : option (list Action)
}.

(** [traj_len = 20  #states.shape[0]] *)
Definition traj_len : nat := 20.

(** The keys collected in [obs_keys_to_remove]: a key is appended once for
    each of the two tests it passes. *)
Definition obs_keys_to_remove (args : Args) (o : list (string * obs_value)) : list string :=
  flat_map
    (fun kv =>
       (if arg_dont_store_image args && str_contains "image" (fst kv) then [fst kv] else [])
       ++ (if arg_dont_store_depth args && str_contains "depth" (fst kv) then [fst kv] else []))
    o.

(** The done signal of step [t] (lines 129-136). *)
Definition done_signal (done_mode : Z) (t : nat) (success : bool) : Z :=
  let done := false in
  let done :=
    if (done_mode =? 1) || (done_mode =? 2) then done || (t =? traj_len)%nat else done in
  let done :=
    if (done_mode =? 0) || (done_mode =? 2) then done || success else done in
  if done then 1 else 0.

(** One iteration of the loop over [t] (lines 101-145). *)
Definition extract_step (env : Env) (sts : list State) (acts : list Action)
    (done_mode : Z) (args : Args) (add_datagen_info : bool) (t : nat)
  : outcome (list (string * obs_value) * Reward * Z * list (string * Info)) :=
  let* st := py_getitem sts (Z.of_nat t) in
  let* o := env_reset_to env (mkStateDict st None None) in
  let* o := dict_del_all (obs_keys_to_remove args o) o in
  let* info :=
    (if add_datagen_info
     then let* a := py_getitem acts (Z.of_nat t) in Ok (env_get_datagen_info env a)
     else Ok []) in
  let r := env_reward env st in
  let done := done_signal done_mode t (env_check_success env st) in
  Ok (o, r, done, info).

(** The conversion of one observation column (lines 160-167): a column whose
    first value is a dictionary is transposed once more. *)
Definition as_dict (v : obs_value) : outcome (list (string * Sensor)) :=
  match v with
  | Dict d => Ok d
  | Leaf _ => Raise TypeError
  end.

Definition convert_column (vs : list obs_value) : outcome obs_column :=
  match vs with
  | [] => Raise IndexError
  | Dict _ :: _ =>
      let* ds := omap as_dict vs in
      Ok (Nested (list_of_flat_dict_to_dict_of_list ds))
  | Leaf _ :: _ => Ok (Column vs)
  end.

Definition convert_obs (d : list (string * list obs_value))
  : outcome (list (string * obs_column)) :=
  omap (fun kv => let* c := convert_column (snd kv) in Ok (fst kv, c)) d.

(** The conversion of a string of [traj["initial_state_dict"]] (lines 160 and
    167): [traj[k][kp][0]] raises [IndexError] on the empty string and on a
    zero-dimensional array; a character is no dictionary, and [np.array]
    makes an array of dtype [<U] of the string. *)
Definition convert_text (v : text) : outcome text :=
  match v with
  | Str EmptyString => Raise IndexError
  | Str s => Ok (UArray s)
  | UArray _ => Raise IndexError
  end.

Definition convert_entry (v : option text) : outcome (option text) :=
  match v with
  | None => Ok None
  | Some v => let* a := convert_text v in Ok (Some a)
  end.

(** The conversion of [traj["initial_state_dict"]] (lines 158-167; the
    [continue] that would skip this key is commented out): the state, the
    model and the episode metadata, in the order of the keys. *)
Definition convert_initial_state (d : StateDict) : outcome StateDict :=
  if negb (has_first (sd_states d)) then Raise IndexError else
  let* model := convert_entry (sd_model d) in
  let* ep_meta := convert_entry (sd_ep_meta d) in
  Ok (mkStateDict (sd_states d) model ep_meta).

(** [extract_trajectory]: replays the states through the environment,
    collects observations, rewards and dones, and converts the entries of
    the trajectory to arrays. *)
Definition extract_trajectory (env : Env) (initial_state : StateDict)
    (sts : list State) (acts : list Action) (done_mode : Z) (args : Args)
    (add_datagen_info : bool) : outcome Traj :=
  if negb (length sts =? length acts)%nat then Raise AssertionError else
  let* _ := env_reset env in
  let* _ := env_reset_to env initial_state in
  let initial_state :=
    mkStateDict (sd_states initial_state) (sd_model initial_state)
                (Some (Str (env_get_ep_meta env))) in
  let g := if arg_global_actions args then Some (env_global_actions env acts) else None in
  let* steps := omap (extract_step env sts acts done_mode args add_datagen_info)
                     (seq 0 traj_len) in
  let obs_list := map (fun s => fst (fst (fst s))) steps in
  let* o := convert_obs (list_of_flat_dict_to_dict_of_list obs_list) in
  let* initial_state := convert_initial_state initial_state in
  Ok {| obs := o;
        next_obs := [];
        rewards := map (fun s => snd (fst (fst s))) steps;
        dones := map (fun s => snd (fst s)) steps;
        actions := acts;
        states := sts;
        initial_state_dict := initial_state;
        datagen_info := list_of_flat_dict_to_dict_of_list (map snd steps);
        global_actions := g |}.

(** ** The input archive *)

(** One episode group of the input file.  Rewards, dones, the model and the
    episode metadata may be absent from a group. *)
Record Episode : Type := mkEpisode {
  ep_states : list State;
  ep_actions : list Action;
  ep_rewards : option (list Reward);
  ep_dones : option (list Z);
  ep_model_file : option string;
  ep_ep_meta : option string;
  ep_action_dict : option (list (string * list Action))
}.

(** [ds_demos] is the list of episode names selected by the filter key, in
    increasing order of episode number (lines 417-426 and 544-553: the order
    comes from [np.argsort] on the parsed numbers). *)
Record Dataset : Type := mkDataset {
  ds_demos : list string;
  ds_data : list (string * Episode);
  ds_mask : bool
}.

Definition dict_get {V : Type} (k : string) (d : list (string * V)) : outcome V :=
  match list_find (fun kv => fst kv = k) d with
  | Some (_, kv) => Ok (snd kv)
  | None => Raise KeyError
  end.

Definition from_attr {V : Type} (a : option V) : outcome V :=
  match a with
  | Some v => Ok v
  | None => Raise KeyError
  end.

(** ** The worker *)

(** A completed record: episode key, trajectory, producing worker. *)
Definition Item : Type := string * Traj * nat.

(** What the processes share, and how many environments have been created
    so far. *)
Record World : Type := mkWorld {
  shared : Shared;
  mul_queue : list Item;
  envs_created : nat
}.

(** The result of running a function that may not return. *)
Inductive run (A : Type) : Type :=
| Returns (a : A) (w : World)
| Raises (e : exn) (w : World)
| OutOfFuel.

Arguments Returns {A} a w.
Arguments Raises {A} e w.
Arguments OutOfFuel {A}.

(** The simulator: [create_env_with_wrappers k] is the outcome of the
    [k]-th creation of an environment. *)
Variable create_env_with_wrappers : nat -> outcome Env.

(** The part of the [try] block before [mul_queue.put] (lines 436-470). *)
Definition replay_episode (ds : Dataset) (demos : list string) (env : Env)
    (args : Args) (ind : Z) : outcome (string * Traj) :=
  let* ep := py_getitem demos ind in
  let* e := dict_get ep (ds_data ds) in
  let sts := ep_states e in
  let* s0 := py_getitem sts 0 in
  let* model := from_attr (ep_model_file e) in
  let initial_state := mkStateDict s0 (Some (Str model)) (option_map Str (ep_ep_meta e)) in
  let acts := ep_actions e in
  let* traj := extract_trajectory env initial_state sts acts (arg_done_mode args)
                                  args (arg_add_datagen_info args) in
  let* traj :=
    (if arg_copy_rewards args
     then let* r := from_attr (ep_rewards e) in
          Ok (mkTraj (obs traj) (next_obs traj) r (dones traj) (actions traj)
                     (states traj) (initial_state_dict traj) (datagen_info traj)
                     (global_actions traj))
     else Ok traj) in
  let* traj :=
    (if arg_copy_dones args
     then let* d := from_attr (ep_dones e) in
          Ok (mkTraj (obs traj) (next_obs traj) (rewards traj) d (actions traj)
                     (states traj) (initial_state_dict traj) (datagen_info traj)
                     (global_actions traj))
     else Ok traj) in
  Ok (ep, traj).

(** The whole [try] block (lines 434-486): the record is enqueued and the
    next index is claimed.  The result is the new value of [ind]. *)
Definition try_block (ds : Dataset) (demos : list string) (env : Env)
    (args : Args) (process_num : nat) (ind : Z) (w : World) : outcome Z * World :=
  match replay_episode ds demos env args ind with
  | Raise e => (Raise e, w)
  | Ok (ep, traj) =>
      let q := mul_queue w ++ [(ep, traj, process_num)] in
      let '(r, s) := retrieve_new_index process_num (shared w) in
      (r, mkWorld s q (envs_created w))
  end.

(** One pass through the body of the worker's [while] loop (lines 434-494):
    the loop goes on with an environment, a value of [ind] and a world, or
    an exception escapes.  The handler of the [try] block replaces the
    environment and leaves [ind] as it is. *)
Inductive iteration : Type :=
| Continue (env : Env) (ind : Z) (w : World)
| Escaped (e : exn) (w : World).

Definition loop_body (ds : Dataset) (demos : list string) (args : Args)
    (process_num : nat) (env : Env) (ind : Z) (w : World) : iteration :=
  match try_block ds demos env args process_num ind w with
  | (Ok ind', w') => Continue env ind' w'
  | (Raise _, w') =>
      match create_env_with_wrappers (envs_created w') with
      | Ok env' =>
          Continue env' ind (mkWorld (shared w') (mul_queue w') (S (envs_created w')))
      | Raise e => Escaped e w'
      end
  end.

(** The [while] loop of the worker (line 433), with a bound on the number of
    passes. *)
Fixpoint worker_loop (fuel : nat) (ds : Dataset) (demos : list string)
    (args : Args) (process_num : nat) (env : Env) (ind : Z) (w : World) : run unit :=
  match fuel with
  | O => OutOfFuel
  | S fuel' =>
      if negb (bool_decide (work_queue (shared w) = [])) && negb (ind =? -1)
      then
        match loop_body ds demos args process_num env ind w with
        | Continue env' ind' w' => worker_loop fuel' ds demos args process_num env' ind' w'
        | Escaped e w' => Raises e w'
        end
      else Returns tt w
  end.

(** [demos] as both the worker and the driver compute it. *)
Definition select_demos (args : Args) (ds : Dataset) : list string :=
  py_slice_to (arg_n args) (ds_demos ds).

Definition extract_multiple_trajectories_with_error (fuel : nat) (ds : Dataset)
    (args : Args) (process_num : nat) (w : World) : run unit :=
  match create_env_with_wrappers (envs_created w) with
  | Raise e => Raises e w
  | Ok env =>
      let w := mkWorld (shared w) (mul_queue w) (S (envs_created w)) in
      let demos := select_demos args ds in
      match retrieve_new_index process_num (shared w) with
      | (Raise e, s) => Raises e (mkWorld s (mul_queue w) (envs_created w))
      | (Ok ind, s) =>
          worker_loop fuel ds demos args process_num env ind
            (mkWorld s (mul_queue w) (envs_created w))
      end
  end.

(** [extract_multiple_trajectories]: on an exception of the worker the
    current assignment goes back to the work queue. *)
Definition extract_multiple_trajectories (fuel : nat) (ds : Dataset)
    (args : Args) (process_num : nat) (w : World) : run unit :=
  match extract_multiple_trajectories_with_error fuel ds args process_num w with
  | Returns _ w' => Returns tt w'
  | OutOfFuel => OutOfFuel
  | Raises _ w' =>
      match current_work_array (shared w') !! process_num with
      | Some i =>
          Returns tt
            (mkWorld (mkShared (work_queue (shared w') ++ [i])
                               (current_work_array (shared w')))
                     (mul_queue w') (envs_created w'))
      | None => Raises IndexError w'
      end
  end.

(** ** The writer *)

(** The data of a dataset of the output file. *)
Inductive payload : Type :=
| PActions (l : list Action)
| PStates (l : list State)
| PRewards (l : list Reward)
| PDones (l : list Z)
| PObs (l : list obs_value)
| PSensor (l : list Sensor)
| PInfo (l : list Info).

(** The number of entries of a dataset (its first dimension). *)
Definition entries (p : payload) : nat :=
  match p with
  | PActions l => length l
  | PStates l => length l
  | PRewards l => length l
  | PDones l => length l
  | PObs l => length l
  | PSensor l => length l
  | PInfo l => length l
  end.

(** An episode group of the output file. *)
Record Group : Type := mkGroup {
  g_name : string;
  g_datasets : list (string * payload);
  g_model_file : option string;
  g_ep_meta : option string;
  g_num_samples : option nat
}.

(** [create_dataset]: a name already in the group raises [ValueError]. *)
Definition create_dataset (name : string) (p : payload) (g : Group) : outcome Group :=
  if bool_decide (name ∈ map fst (g_datasets g)) then Raise ValueError
  else Ok (mkGroup (g_name g) (g_datasets g ++ [(name, p)]) (g_model_file g)
                   (g_ep_meta g) (g_num_samples g)).

Fixpoint create_datasets (l : list (string * payload)) (g : Group) : outcome Group :=
  match l with
  | [] => Ok g
  | (name, p) :: l' => let* g' := create_dataset name p g in create_datasets l' g'
  end.

(** The datasets written for one key of [traj["obs"]] (lines 210-250).
    [traj["next_obs"]] is an empty array, which no key can index. *)
Definition write_obs_key (args : Args) (k : string) (c : obs_column) (g : Group)
  : outcome Group :=
  match c with
  | Nested d =>
      create_datasets
        (map (fun kv => ("obs/" +:+ k +:+ "/" +:+ fst kv, PSensor (snd kv))) d) g
  | Column vs =>
      let* g' := create_dataset ("obs/" +:+ k) (PObs vs) g in
      if arg_include_next_obs args then Raise IndexError else Ok g'
  end.

Fixpoint write_obs (args : Args) (o : list (string * obs_column)) (g : Group)
  : outcome Group :=
  match o with
  | [] => Ok g
  | (k, c) :: o' => let* g' := write_obs_key args k c g in write_obs args o' g'
  end.

(** [group.attrs[name] = value] of the archive library: a Python [str] is
    stored as a string; for an array of dtype [<U] the library has no
    conversion path and raises [TypeError]. *)
Definition attrs_set (v : text) : outcome string :=
  match v with
  | Str s => Ok s
  | UArray _ => Raise TypeError
  end.

(** The first part of the inner [try] block of the writer (lines 194-266):
    the group of one record and its datasets. *)
Definition write_datasets (args : Args) (ds : Dataset) (groups : list Group)
    (ep : string) (traj : Traj) : outcome Group :=
  if bool_decide (ep ∈ map g_name groups) then Raise ValueError else
  let g := mkGroup ep [] None None None in
  let* g := create_dataset "actions" (PActions (actions traj)) g in
  let* g :=
    (if arg_global_actions args
     then let* ga := from_attr (global_actions traj) in
          create_dataset "global_actions" (PActions ga) g
     else Ok g) in
  let* g := create_dataset "states" (PStates (states traj)) g in
  let* g := create_dataset "rewards" (PRewards (rewards traj)) g in
  let* g := create_dataset "dones" (PDones (dones traj)) g in
  let* g := write_obs args (obs traj) g in
  let* g :=
    create_datasets
      (map (fun kv => ("datagen_info/" +:+ fst kv, PInfo (snd kv))) (datagen_info traj)) g in
  match dict_get ep (ds_data ds) with
  | Ok {| ep_action_dict := Some ad |} =>
      create_datasets
        (map (fun kv => ("action_dict/" +:+ fst kv, PActions (snd kv))) ad) g
  | _ => Ok g
  end.

(** The inner [try] block of the writer (lines 194-281): the datasets, then
    the attributes [model_file], [ep_meta] and [num_samples] of the group.
    The result is the group and the record's number of actions. *)
Definition write_group (args : Args) (ds : Dataset) (groups : list Group)
    (ep : string) (traj : Traj) : outcome (Group * nat) :=
  let* g := write_datasets args ds groups ep traj in
  let* model := from_attr (sd_model (initial_state_dict traj)) in
  let* model := attrs_set model in
  let* meta := from_attr (sd_ep_meta (initial_state_dict traj)) in
  let* meta := attrs_set meta in
  Ok (mkGroup (g_name g) (g_datasets g) (Some model) (Some meta)
              (Some (length (actions traj))),
      length (actions traj)).

(** The output file and the calls made on it once it is closed. *)
Record OutFile : Type := mkOutFile {
  out_groups : list Group;
  out_mask : bool;
  out_total : nat;
  out_filter_calls : list Z
}.

(** The sizes of the derivative archives (lines 314-345). *)
Definition filter_sizes : list Z :=
  [10; 20; 30; 40; 50; 60; 70; 75; 80; 90; 100; 125; 150; 200; 250; 300; 400;
   500; 600; 700; 800; 900; 1000; 1500; 2000; 2500; 3000; 4000; 5000; 10000].

(** How the [while] loop of the writer ends: its condition fails, it waits
    forever in [mul_queue.get()] on a queue that stays empty, or the
    exception of a failed write escapes. *)
Inductive loop_end : Type :=
| Drained (groups : list Group) (received total_samples : nat) (remaining : list Item)
| Waiting (groups : list Group) (received total_samples : nat)
| Aborted (e : exn).

(** The [while] loop of the writer (lines 187-289), by recursion on the
    records the queue will deliver.  A [KeyboardInterrupt] comes from outside
    the program and is not part of the model. *)
Fixpoint writer_loop (args : Args) (ds : Dataset) (q : list Item)
    (num_processed total_samples : nat) (groups : list Group) : loop_end :=
  if (num_processed <? total_samples)%nat then
    match q with
    | [] => Waiting groups num_processed total_samples
    | (ep, traj, _) :: q' =>
        match write_group args ds groups ep traj with
        | Ok (g, n) =>
            writer_loop args ds q' (S num_processed) (total_samples + n)%nat
                        (groups ++ [g])
        | Raise _ => Aborted (PyException "Write out to file has failed")
        end
    end
  else Drained groups num_processed total_samples q.

(** How a run of the writer ends. *)
Inductive writer_result : Type :=
| Written (out : OutFile) (received : nat) (remaining : list Item)
| Blocked (groups : list Group) (received total_samples : nat)
| Failed (e : exn).

(** [write_traj_to_file args output_path total_samples mul_queue], with the
    queue given by the records it delivers.  After the loop the mask is
    copied when the input has one, the total is stored, and
    [filter_dataset_size] is called once for each size. *)
Definition write_traj_to_file (args : Args) (ds : Dataset) (total_samples : nat)
    (q : list Item) : writer_result :=
  match writer_loop args ds q 0 total_samples [] with
  | Aborted e => Failed e
  | Waiting groups received total => Blocked groups received total
  | Drained groups received total remaining =>
      Written (mkOutFile groups (ds_mask ds) total filter_sizes) received remaining
  end.

(** ** The driver *)

(** [dataset_states_to_obs_multiprocessing]: the work queue receives the
    indices [0 .. num_demos - 1], worker 0 runs in the calling process, and
    the list [processes] stays empty, so that nothing else is started.  The
    result is the output file, which no statement of the driver opens.
    [persisted] is what the durable queue holds when it is opened. *)
Definition dataset_states_to_obs_multiprocessing (fuel : nat) (args : Args)
    (ds : Dataset) (persisted : list Item) : run (option OutFile) :=
  let demos := select_demos args ds in
  let num_demos := length demos in
  let num_processes := arg_num_procs args in
  let work_queue := map Z.of_nat (seq 0 num_demos) in
  let current_work_array := replicate num_processes 0 in
  let w := mkWorld (mkShared work_queue current_work_array) persisted 0 in
  match extract_multiple_trajectories fuel ds args 0 w with
  | Returns _ w' => Returns None w'
  | Raises e w' => Raises e w'
  | OutOfFuel => OutOfFuel
  end.

End Extractor.

Arguments Returns {State Action Reward Sensor Info A} a w.
Arguments Raises {State Action Reward Sensor Info A} e w.
Arguments OutOfFuel {State Action Reward Sensor Info A}.

(** ** XML trees *)

(** An element of [xml.etree.ElementTree]: tag, attributes in document order,
    children.  The functions below visit a tree to a fixed depth, so no
    induction principle is generated. *)
Local Unset Elimination Schemes.
Inductive element : Type :=
| Element (tag : string) (attrib : list (string * string)) (children : list element).
Local Set Elimination Schemes.

Definition tag (e : element) : string := let 'Element t _ _ := e in t.
Definition attrib (e : element) : list (string * string) := let 'Element _ a _ := e in a.
Definition children (e : element) : list element := let 'Element _ _ c := e in c.

(** [elem.get(key)] *)
Fixpoint attr_get (key : string) (a : list (string * string)) : option string :=
  match a with
  | [] => None
  | (k, v) :: a' => if decide (k = key) then Some v else attr_get key a'
  end.

(** [elem.set(key, value)]: an existing key keeps its place. *)
Fixpoint attr_set (key value : string) (a : list (string * string)) : list (string * string) :=
  match a with
  | [] => [(key, value)]
  | (k, v) :: a' =>
      if decide (k = key) then (k, value) :: a' else (k, v) :: attr_set key value a'
  end.

Definition get (key : string) (e : element) : option string := attr_get key (attrib e).

Definition set (key value : string) (e : element) : element :=
  Element (tag e) (attr_set key value (attrib e)) (children e).

(** The first element of a list on which a selector answers. *)
Fixpoint first_some {A B : Type} (s : A -> option B) (l : list A) : option B :=
  match l with
  | [] => None
  | a :: l' =>
      match s a with
      | Some b => Some b
      | None => first_some s l'
      end
  end.

(** The in-place change of the first element of a list that an updater
    accepts: [None] when it accepts none. *)
Fixpoint update_first {A : Type} (u : A -> option (outcome A)) (l : list A)
  : option (outcome (list A)) :=
  match l with
  | [] => None
  | a :: l' =>
      match u a with
      | Some (Ok a') => Some (Ok (a' :: l'))
      | Some (Raise e) => Some (Raise e)
      | None =>
          match update_first u l' with
          | Some (Ok r) => Some (Ok (a :: r))
          | Some (Raise e) => Some (Raise e)
          | None => None
          end
      end
  end.

(** One step [t/...] of a path: the children of an element tagged [t]. *)
Definition descend {B : Type} (t : string) (s : element -> option B) (e : element) : option B :=
  if decide (tag e = t) then first_some s (children e) else None.

Definition descend_update (t : string) (u : element -> option (outcome element))
    (e : element) : option (outcome element) :=
  if decide (tag e = t) then
    match update_first u (children e) with
    | Some (Ok c) => Some (Ok (Element (tag e) (attrib e) c))
    | Some (Raise x) => Some (Raise x)
    | None => None
    end
  else None.

Definition has_tag (t : string) (e : element) : option element :=
  if decide (tag e = t) then Some e else None.

(** [root.find(t)] and [elem.findall(t)] for a plain tag [t]. *)
Definition find (t : string) (root : element) : option element :=
  first_some (has_tag t) (children root).

Definition findall (t : string) (e : element) : list element :=
  filter (fun c => tag c = t) (children e).

(** [root.find("worldbody/body/site[@name='n']")] *)
Definition is_site (n : string) (e : element) : option element :=
  if decide (tag e = "site" /\ get "name" e = Some n) then Some e else None.

Definition find_site (n : string) (root : element) : option element :=
  first_some (descend "worldbody" (descend "body" (is_site n))) (children root).

(** ** Paths *)

(** [s.split(sep)] and [sep.join(l)] for a separator of one character. *)
Fixpoint split_on (sep : ascii) (s : string) : list string :=
  match s with
  | EmptyString => [EmptyString]
  | String c s' =>
      if decide (c = sep) then EmptyString :: split_on sep s'
      else match split_on sep s' with
           | h :: t => String c h :: t
           | [] => [String c EmptyString]
           end
  end.

Fixpoint join_with (sep : ascii) (l : list string) : string :=
  match l with
  | [] => EmptyString
  | [a] => a
  | a :: l' => a +:+ String sep (join_with sep l')
  end.

(** [s.split("/")] and ["/".join(l)] *)
Definition split_slash (s : string) : list string := split_on "/" s.
Definition join_slash (l : list string) : string := join_with "/" l.

(** [[loc for loc, val in enumerate(l) if val == v]] *)
Definition check_lst (v : string) (l : list string) : list nat :=
  map fst (filter (fun p => snd p = v) (imap (fun i x => (i, x)) l)).

(** The new value of a [file] attribute after one of the two replacements
    (lines 44-51 and 54-66), [None] when the component does not occur. *)
Definition replace_prefix (component : string) (new_prefix : list string)
    (old_path_split : list string) : option string :=
  let lst := check_lst component old_path_split in
  if (0 <? length lst)%nat then
    let ind := max_list lst in
    Some (join_slash (new_prefix ++ drop (ind + 1) old_path_split))
  else None.

(** The in-place change of the children of [root.find("asset")];
    [AttributeError] when the root has no such child. *)
Definition update_asset (f : list element -> outcome (list element)) (root : element)
  : outcome element :=
  match
    update_first
      (fun e =>
         if decide (tag e = "asset")
         then Some (let* c := f (children e) in Ok (Element (tag e) (attrib e) c))
         else None)
      (children root)
  with
  | None => Raise AttributeError
  | Some r => let* c := r in Ok (Element (tag root) (attrib root) c)
  end.

Definition is_mesh_or_texture (e : element) : bool :=
  bool_decide (tag e = "mesh") || bool_decide (tag e = "texture").

Section PostProcess.

(** [robosuite_path] is [os.path.split(robosuite.__file__)[0]] and
    [robosuite_model_zoo_path] is
    [os.path.split(robosuite_model_zoo.__file__)[0]]: the directories of the
    two installed packages. *)
Variables robosuite_path robosuite_model_zoo_path : string.

(** The body of the loop over [all_elements] (lines 38-66).  Both
    replacements read [old_path_split]; the second overwrites the first. *)
Definition postprocess_elem (elem : element) : element :=
  match get "file" elem with
  | None => elem
  | Some old_path =>
      let path_split := split_slash robosuite_path in
      let old_path_split := split_slash old_path in
      let elem :=
        match replace_prefix "robosuite" path_split old_path_split with
        | Some new_path => set "file" new_path elem
        | None => elem
        end in
      let elem :=
        match
          replace_prefix "robosuite-model-zoo-dev"
            (py_slice_to (Some (-1)) (split_slash robosuite_model_zoo_path))
            old_path_split
        with
        | Some new_path => set "file" new_path elem
        | None => elem
        end in
      elem
  end.

(** [postprocess_model_xml], on the parsed tree: the meshes and textures of
    the asset section are changed where they stand. *)
Definition postprocess_model_xml (root : element) : outcome element :=
  update_asset
    (fun cs => Ok (map (fun c => if is_mesh_or_texture c then postprocess_elem c else c) cs))
    root.

End PostProcess.

(** ** The constructor of [MJCFObject] *)

Section MJCFObject.

(** The numbers of the array library, with their product, and the two
    conversions of [robosuite.utils.mjcf_utils]. *)
Context {R : Type}.
Variable mul : R -> R -> R.
Variable string_to_array : string -> outcome (list R).
Variable array_to_string : list R -> string.
Variables robosuite_path robosuite_model_zoo_path : string.

(** The argument [scale]: a float, a tuple or list, or anything else. *)
Inductive scale_arg : Type :=
| ScaleFloat (x : R)
| ScaleSeq (l : list R)
| ScaleOther.

(** Lines 90-97. *)
Definition get_scale (scale : scale_arg) : outcome (list R) :=
  match scale with
  | ScaleFloat x => Ok [x; x; x]
  | ScaleSeq l => if (length l =? 3)%nat then Ok l else Raise AssertionError
  | ScaleOther => Raise (PyException "got invalid scale")
  end.

(** The product [a * b] of two one-dimensional arrays, with the
    broadcasting of an array of one element. *)
Definition np_mul (a b : list R) : outcome (list R) :=
  if (length a =? length b)%nat then Ok (zip_with mul a b)
  else match a, b with
       | [x], _ => Ok (map (mul x) b)
       | _, [y] => Ok (map (fun x => mul x y) a)
       | _, _ => Raise ValueError
       end.

(** The body of the loop over [meshes] (lines 119-124). *)
Definition scale_mesh (scale : list R) (mesh : element) : outcome element :=
  let* scale_to_set :=
    match get "scale" mesh with
    | Some existing_scale =>
        let* a := string_to_array existing_scale in np_mul a scale
    | None => Ok scale
    end in
  Ok (set "scale" (array_to_string scale_to_set) mesh).

(** The body of the loop over the three sites (lines 129-131), on the site
    found. *)
Definition scale_site (scale : list R) (site : element) : outcome element :=
  let* pos_str :=
    match get "pos" site with
    | Some p => Ok p
    | None => Raise AttributeError
    end in
  let* pos := string_to_array pos_str in
  let* pos := np_mul scale pos in
  Ok (set "pos" (array_to_string pos) site).

Definition site_update (n : string) (scale : list R) (e : element)
  : option (outcome element) :=
  if decide (tag e = "site" /\ get "name" e = Some n) then Some (scale_site scale e) else None.

Definition update_site (scale : list R) (root : element) (n : string) : outcome element :=
  match
    update_first
      (descend_update "worldbody" (descend_update "body" (site_update n scale)))
      (children root)
  with
  | None => Raise AttributeError
  | Some r => let* c := r in Ok (Element (tag root) (attrib root) c)
  end.

Fixpoint update_sites (scale : list R) (root : element) (names : list string)
  : outcome element :=
  match names with
  | [] => Ok root
  | n :: names' => let* root' := update_site scale root n in update_sites scale root' names'
  end.

(** [MJCFObject.__init__] up to the XML it writes for its superclass
    (lines 89-152): [root] is the tree parsed from [mjcf_path]. *)
Definition MJCFObject_init (scale : scale_arg) (root : element) : outcome element :=
  let* scale := get_scale scale in
  let* root :=
    update_asset
      (omap (fun c => if decide (tag c = "mesh") then scale_mesh scale c else Ok c))
      root in
  let* root :=
    update_sites scale root ["bottom_site"; "top_site"; "horizontal_radius_site"] in
  postprocess_model_xml robosuite_path robosuite_model_zoo_path root.

(** What the constructor does to a mesh [m] of the asset section and to one
    of the three sites, [m'] and [site'] being the elements in the XML it
    writes. *)
Definition mesh_scaled (s : list R) (m m' : element) : Prop :=
  match get "scale" m with
  | None => get "scale" m' = Some (array_to_string s)
  | Some existing_scale =>
      exists a p,
        string_to_array existing_scale = Ok a
        /\ np_mul a s = Ok p
        /\ get "scale" m' = Some (array_to_string p)
  end.

Definition site_scaled (s : list R) (site site' : element) : Prop :=
  exists pos a p,
    get "pos" site = Some pos
    /\ string_to_array pos = Ok a
    /\ np_mul s a = Ok p
    /\ get "pos" site' = Some (array_to_string p).

End MJCFObject.

(** ** Sample inputs *)

(** States, actions and sensor readings are numbers here, and every state
    has a first entry; an observation has the single key [robot0_eef_pos]. *)
#[global] Instance sample_state_indexable : Indexable nat := fun _ => true.

Definition sample_env : @Env nat nat Z nat unit :=
  mkEnv (Ok tt)
        (fun sd => Ok [("robot0_eef_pos", Leaf (sd_states sd))])
        "{}"
        (fun _ => 0)
        (fun st => bool_decide (st = 7%nat))
        (fun _ => [])
        (fun acts => acts).

(** An environment whose simulator fails on every state. *)
Definition broken_env : @Env nat nat Z nat unit :=
  mkEnv (Ok tt) (fun _ => Raise SimulatorError) "{}" (fun _ => 0) (fun _ => false)
        (fun _ => []) (fun acts => acts).

Definition sample_args : Args :=
  mkArgs None 0 false false false false 1 false false false false.

(** A recorded episode of [len] transitions. *)
Definition sample_episode (len : nat) : @Episode nat nat Z :=
  mkEpisode (seq 0 len) (seq 0 len) None None (Some "<mujoco/>") None None.

Definition sample_dataset : @Dataset nat nat Z :=
  mkDataset ["demo_0"; "demo_1"; "demo_2"]
            [("demo_0", sample_episode 20); ("demo_1", sample_episode 20);
             ("demo_2", sample_episode 20)]
            true.

(** Every creation of an environment succeeds. *)
Definition sample_sim : nat -> outcome (@Env nat nat Z nat unit) :=
  fun _ => Ok sample_env.

(** The first environment is broken, the later ones work. *)
Definition flaky_sim : nat -> outcome (@Env nat nat Z nat unit) :=
  fun k => match k with O => Ok broken_env | S _ => Ok sample_env end.

(** The first environment is broken and no other can be created. *)
Definition failing_sim : nat -> outcome (@Env nat nat Z nat unit) :=
  fun k => match k with O => Ok broken_env | S _ => Raise SimulatorError end.

Definition sample_world (queue : list Z) : @World nat nat Z nat unit :=
  mkWorld (mkShared queue [0]) [] 0.

(** No environment can be created. *)
Definition dead_sim : nat -> outcome (@Env nat nat Z nat unit) :=
  fun _ => Raise SimulatorError.

(** One environment can be created, and no second one. *)
Definition one_env_sim : nat -> outcome (@Env nat nat Z nat unit) :=
  fun k => match k with O => Ok sample_env | S _ => Raise SimulatorError end.

(** An archive whose second episode has five recorded states only. *)
Definition short_second_dataset : @Dataset nat nat Z :=
  mkDataset ["demo_0"; "demo_1"; "demo_2"]
            [("demo_0", sample_episode 20); ("demo_1", sample_episode 5);
             ("demo_2", sample_episode 20)]
            true.

(** ** The claims C4, C6, C7 and C9 in the words of the specification *)

(** The claim C4 in the words of the specification: on a queue without
    indices the claim operation fails with [EmptyQueue]. *)
Definition fails_with_EmptyQueue (process_num : nat) (s : Shared) : Prop :=
  work_queue s = [] -> fst (retrieve_new_index process_num s) = Raise QueueEmpty.

(** The claim C7 in the words of the specification.  The indices that a
    worker claims are those that it takes from the head of the work queue,
    so that the index it has claimed last is the one in front of what is left
    of the queue.  That index is back in the queue, once, at its end, and it
    is what the slot of the worker holds. *)
Definition last_claimed_index_requeued {State Action Reward Sensor Info : Type}
    (p : nat) (w w' : @World State Action Reward Sensor Info) : Prop :=
  exists front ind rest,
    work_queue (shared w) = front ++ ind :: rest
    /\ work_queue (shared w') = rest ++ [ind]
    /\ current_work_array (shared w') !! p = Some ind.

(** Whenever an exception leaves [extract_multiple_trajectories_with_error],
    [extract_multiple_trajectories] returns with the last claimed index back
    in the queue. *)
Definition requeues_last_claimed_index {State Action Reward Sensor Info : Type}
    `{!Indexable State}
    (create_env : nat -> outcome (@Env State Action Reward Sensor Info))
    fuel ds args p (w : @World State Action Reward Sensor Info) : Prop :=
  forall e w1,
    extract_multiple_trajectories_with_error create_env fuel ds args p w = Raises e w1 ->
    exists w',
      extract_multiple_trajectories create_env fuel ds args p w = Returns tt w'
      /\ last_claimed_index_requeued p w w'.

(** The claim C6 in the words of the specification: after a failed attempt
    the worker goes on with the index that a new claim takes from the queue. *)
Definition continues_with_next_claimed_index {State Action Reward Sensor Info : Type}
    `{!Indexable State}
    (create_env : nat -> outcome (@Env State Action Reward Sensor Info))
    ds demos args p env ind (w : @World State Action Reward Sensor Info) : Prop :=
  forall e, replay_episode ds demos env args ind = Raise e ->
  exists env' ind' s',
    retrieve_new_index p (shared w) = (Ok ind', s')
    /\ loop_body create_env ds demos args p env ind w
       = Continue env' ind' (mkWorld s' (mul_queue w) (S (envs_created w))).

(** What [postprocess_model_xml] does to a child [e] of the asset section,
    [e'] being the child after the call. *)
Definition file_rewritten (robosuite_path robosuite_model_zoo_path : string)
    (e e' : element) : Prop :=
  (is_mesh_or_texture e = false -> e' = e)
  /\ (is_mesh_or_texture e = true ->
      match get "file" e with
      | None => e' = e
      | Some old_path =>
          let old := split_slash old_path in
          (forall pre suf,
              old = pre ++ "robosuite-model-zoo-dev" :: suf ->
              "robosuite-model-zoo-dev" ∉ suf ->
              e' = set "file"
                     (join_slash
                        (py_slice_to (Some (-1)) (split_slash robosuite_model_zoo_path)
                         ++ suf)) e)
          /\ ("robosuite-model-zoo-dev" ∉ old ->
              forall pre suf,
                old = pre ++ "robosuite" :: suf ->
                "robosuite" ∉ suf ->
                e' = set "file" (join_slash (split_slash robosuite_path ++ suf)) e)
          /\ ("robosuite-model-zoo-dev" ∉ old -> "robosuite" ∉ old -> e' = e)
      end).

(** The claim C9 in the words of the specification, one part for each of the
    two components: the path up to the last occurrence of the component is
    replaced by the directory of the installed package. *)
Definition robosuite_rewritten_as_stated (robosuite_path : string) (e e' : element) : Prop :=
  is_mesh_or_texture e = true ->
  forall old_path pre suf,
    get "file" e = Some old_path ->
    split_slash old_path = pre ++ "robosuite" :: suf ->
    "robosuite" ∉ suf ->
    get "file" e' = Some (join_slash (split_slash robosuite_path ++ suf)).

Definition zoo_rewritten_as_stated (robosuite_model_zoo_path : string) (e e' : element)
  : Prop :=
  is_mesh_or_texture e = true ->
  forall old_path pre suf,
    get "file" e = Some old_path ->
    split_slash old_path = pre ++ "robosuite-model-zoo-dev" :: suf ->
    "robosuite-model-zoo-dev" ∉ suf ->
    get "file" e' = Some (join_slash (split_slash robosuite_model_zoo_path ++ suf)).

Definition file_rewritten_as_stated (robosuite_path robosuite_model_zoo_path : string)
    (e e' : element) : Prop :=
  robosuite_rewritten_as_stated robosuite_path e e'
  /\ zoo_rewritten_as_stated robosuite_model_zoo_path e e'.

(** A model with a mesh below the model zoo, a texture whose path holds both
    components, and a mesh that has a scale. *)
Definition sample_model : element :=
  Element "mujoco" [("model", "can")]
    [Element "asset" []
       [Element "mesh" [("file", "/home/u/robosuite-model-zoo-dev/assets/can/can.obj");
                        ("name", "can_mesh")] [];
        Element "texture" [("file", "/data/robosuite/tmp/robosuite-model-zoo-dev/assets/can/tex.png");
                           ("name", "can_tex")] [];
        Element "mesh" [("file", "meshes/lid.obj"); ("name", "lid_mesh");
                        ("scale", "1 2 3")] [];
        Element "material" [("name", "can_mat")] []];
     Element "worldbody" []
       [Element "body" []
          [Element "site" [("name", "bottom_site"); ("pos", "0 0 -1")] [];
           Element "site" [("name", "top_site"); ("pos", "0 0 1")] [];
           Element "site" [("name", "horizontal_radius_site"); ("pos", "1 1 0")] []]]].

(** Arrays of integers in decimal notation, separated by spaces, as a sample
    of the two conversions between strings and arrays. *)
Definition digit_value (c : ascii) : option Z :=
  let n := Z.of_N (N_of_ascii c) in
  if (48 <=? n) && (n <=? 57) then Some (n - 48) else None.

Fixpoint parse_digits (s : string) (acc : Z) : option Z :=
  match s with
  | EmptyString => Some acc
  | String c s' =>
      match digit_value c with
      | Some d => parse_digits s' (10 * acc + d)
      | None => None
      end
  end.

Definition parse_Z (s : string) : option Z :=
  match s with
  | EmptyString => None
  | String "-"%char EmptyString => None
  | String "-"%char s' => Z.opp <$> parse_digits s' 0
  | _ => parse_digits s 0
  end.

Fixpoint show_digits (fuel : nat) (n : Z) (acc : string) : string :=
  match fuel with
  | O => acc
  | S fuel' =>
      let acc' := String (ascii_of_N (Z.to_N (48 + n mod 10))) acc in
      if n / 10 =? 0 then acc' else show_digits fuel' (n / 10) acc'
  end.

Definition show_Z (z : Z) : string :=
  if z <? 0 then String "-"%char (show_digits 20 (- z) EmptyString)
  else show_digits 20 z EmptyString.

Definition sample_string_to_array (s : string) : outcome (list Z) :=
  omap (fun w => match parse_Z w with Some z => Ok z | None => Raise ValueError end)
       (split_on " " s).

Definition sample_array_to_string (a : list Z) : string :=
  join_with " " (map show_Z a).

(** ** The geoms of [MJCFObject] *)

Section GetGeoms.

(** The numbers of the array library, [array_to_string] of robosuite and the
    [str] of Python on a number. *)
Context {R : Type}.
Variable array_to_string : list R -> string.
Variable str : R -> string.

(** The attributes of the object that [_get_geoms] reads. *)
Record MJCFObject : Type := mkMJCFObject {
  solimp : list R;
  solref : list R;
  density : R;
  friction : list R;
  margin : option R;
  rgba : option (list R);
  priority : option R
}.

(** The body of the loop of [_get_geoms] (lines 192-204), on one geom. *)
Definition modify_geom (self : MJCFObject) (geom : element) : element :=
  let geom := set "solref" (array_to_string (solref self)) geom in
  let geom := set "solimp" (array_to_string (solimp self)) geom in
  let geom := set "density" (str (density self)) geom in
  let geom := set "friction" (array_to_string (friction self)) geom in
  let geom :=
    match margin self with
    | Some m => set "margin" (str m) geom
    | None => geom
    end in
  let geom :=
    match rgba self with
    | Some c =>
        if decide (get "group" geom = Some "1")
        then set "rgba" (array_to_string c) geom
        else geom
    | None => geom
    end in
  let geom :=
    match priority self with
    | Some n => set "priority" (str n) geom
    | None => geom
    end in
  geom.

(** [_get_geoms], on the geoms that the method of the superclass returns:
    each one is modified where it stands in the tree. *)
Definition get_geoms (self : MJCFObject) (geoms : list element) : list element :=
  map (modify_geom self) geoms.

(** The attributes of a geom after [_get_geoms]. *)
Definition geom_modified (self : MJCFObject) (geom g : element) : Prop :=
  get "solref" g = Some (array_to_string (solref self))
  /\ get "solimp" g = Some (array_to_string (solimp self))
  /\ get "density" g = Some (str (density self))
  /\ get "friction" g = Some (array_to_string (friction self))
  /\ get "margin" g = match margin self with
                      | Some m => Some (str m)
                      | None => get "margin" geom
                      end
  /\ get "rgba" g = match rgba self with
                    | Some c => if decide (get "group" geom = Some "1")
                                then Some (array_to_string c)
                                else get "rgba" geom
                    | None => get "rgba" geom
                    end
  /\ get "priority" g = match priority self with
                        | Some n => Some (str n)
                        | None => get "priority" geom
                        end
  /\ tag g = tag geom /\ children g = children geom
  /\ forall key,
       key ∉ ["solref"; "solimp"; "density"; "friction"; "margin"; "rgba"; "priority"] ->
       get key g = get key geom.

End GetGeoms.

(** ** The path of the output file *)

(** ["/" in s], [s.startswith("/")], [s.endswith("/")], [s == "/" * len(s)]
    and [s.rstrip("/")]. *)
Fixpoint has_slash (s : string) : bool :=
  match s with
  | EmptyString => false
  | String c s' => bool_decide (c = "/"%char) || has_slash s'
  end.

Definition starts_with_slash (s : string) : bool :=
  match s with
  | String c _ => bool_decide (c = "/"%char)
  | EmptyString => false
  end.

Fixpoint ends_with_slash (s : string) : bool :=
  match s with
  | EmptyString => false
  | String c EmptyString => bool_decide (c = "/"%char)
  | String _ s' => ends_with_slash s'
  end.

Fixpoint all_slashes (s : string) : bool :=
  match s with
  | EmptyString => true
  | String c s' => bool_decide (c = "/"%char) && all_slashes s'
  end.

Fixpoint rstrip_slash (s : string) : string :=
  match s with
  | EmptyString => EmptyString
  | String c s' =>
      match rstrip_slash s' with
      | EmptyString => if bool_decide (c = "/"%char) then EmptyString else String c EmptyString
      | r => String c r
      end
  end.

(** [p[i:]] and [p[:i]] for [i = p.rfind("/") + 1]. *)
Fixpoint after_last_slash (p : string) : string :=
  match p with
  | EmptyString => EmptyString
  | String c p' =>
      if has_slash p' then after_last_slash p'
      else if bool_decide (c = "/"%char) then p' else p
  end.

Fixpoint upto_last_slash (p : string) : string :=
  match p with
  | EmptyString => EmptyString
  | String c p' =>
      if has_slash p' then String c (upto_last_slash p')
      else if bool_decide (c = "/"%char) then "/" else EmptyString
  end.

(** [os.path.basename], [os.path.dirname] and [os.path.join] on two paths. *)
Definition basename (p : string) : string := after_last_slash p.

Definition dirname (p : string) : string :=
  let head := upto_last_slash p in
  if negb (bool_decide (head = EmptyString)) && negb (all_slashes head)
  then rstrip_slash head
  else head.

Definition path_join (a b : string) : string :=
  if starts_with_slash b then b
  else if bool_decide (a = EmptyString) || ends_with_slash a then a +:+ b
  else a +:+ "/" +:+ b.

(** [s[:-5]] *)
Definition drop_last_five (s : string) : string :=
  String.substring 0 (String.length s - 5) s.

Section OutputPath.

(** [str] on an integer. *)
Variable str : Z -> string.

(** What follows the stem in the default name of the output (lines 522-536). *)
Definition output_name_suffix (camera_names : list string) (camera_width : Z)
    (randomize_cameras generative_textures : bool) : string :=
  if (length camera_names =? 0)%nat then "_ld.hdf5"
  else
    let image_suffix := str camera_width in
    let image_suffix :=
      if randomize_cameras then image_suffix +:+ "_randcams" else image_suffix in
    if generative_textures then "_gentex_im" +:+ image_suffix +:+ ".hdf5"
    else "_im" +:+ image_suffix +:+ ".hdf5".

(** [output_path] as the driver computes it (lines 520-538). *)
Definition output_path (dataset : string) (output_name : option string)
    (camera_names : list string) (camera_width : Z)
    (randomize_cameras generative_textures : bool) : string :=
  let output_name :=
    match output_name with
    | Some name => name
    | None =>
        drop_last_five (basename dataset)
        +:+ output_name_suffix camera_names camera_width randomize_cameras
                               generative_textures
    end in
  path_join (dirname dataset) output_name.

End OutputPath.

(** ** Further sample inputs and notions *)

(** The test that sends a key to [obs_keys_to_remove]. *)
Definition removed (args : Args) (k : string) : bool :=
  (arg_dont_store_image args && str_contains "image" k)
  || (arg_dont_store_depth args && str_contains "depth" k).

(** What a run of the worker keeps: the slots of the other workers, the
    number of slots, the records already in the output queue, to which it
    adds records of its own only, and the count of environments, which does
    not decrease. *)
Definition worker_keeps {State Action Reward Sensor Info : Type} (p : nat)
    (w w' : @World State Action Reward Sensor Info) : Prop :=
  length (current_work_array (shared w')) = length (current_work_array (shared w))
  /\ (forall q, q <> p ->
        current_work_array (shared w') !! q = current_work_array (shared w) !! q)
  /\ (exists recs, mul_queue w' = mul_queue w ++ recs /\ Forall (fun r => snd r = p) recs)
  /\ (envs_created w <= envs_created w')%nat.

(** An environment with a camera: a position, an image and a depth map. *)
Definition camera_env : @Env nat nat Z nat unit :=
  mkEnv (Ok tt)
        (fun sd => Ok [("robot0_eef_pos", Leaf (sd_states sd));
                       ("agentview_image", Leaf (sd_states sd));
                       ("agentview_depth", Leaf (sd_states sd))])
        "{}" (fun _ => 0) (fun _ => false) (fun _ => []) (fun acts => acts).

(** An environment with a key that holds both [image] and [depth]. *)
Definition odd_camera_env : @Env nat nat Z nat unit :=
  mkEnv (Ok tt)
        (fun sd => Ok [("robot0_eef_pos", Leaf (sd_states sd));
                       ("agentview_depth_image", Leaf (sd_states sd))])
        "{}" (fun _ => 0) (fun _ => false) (fun _ => []) (fun acts => acts).

(** The options [dont_store_image] and [dont_store_depth] on their own. *)
Definition no_image_args : Args :=
  mkArgs None 0 false false false false 1 false false true false.

Definition no_camera_args : Args :=
  mkArgs None 0 false false false false 1 false false true true.

(** The option [include_next_obs]. *)
Definition next_obs_args : Args :=
  mkArgs None 0 false false true false 1 false false false false.

(** [str] on the integers the samples use. *)
Definition sample_string_of_int (z : Z) : string := show_Z z.

(** No worker process: [num_procs = 0]. *)
Definition no_slot_args : Args :=
  mkArgs None 0 false false false false 0 false false false false.

(** A mesh below a copy of robosuite somewhere else. *)
Definition foreign_mesh : element :=
  Element "mesh" [("file", "/data/robosuite/models/can.obj"); ("name", "can")] [].

(** An archive with one episode of 21 recorded transitions. *)
Definition long_dataset : @Dataset nat nat Z :=
  mkDataset ["demo_0"] [("demo_0", sample_episode 21)] true.

(** An archive with an episode of five recorded states. *)
Definition short_dataset : @Dataset nat nat Z :=
  mkDataset ["demo_0"; "demo_1"]
            [("demo_0", sample_episode 5); ("demo_1", sample_episode 20)]
            false.

(** A record with two transitions, made by hand: its model and metadata
    are Python strings. *)
Definition two_step_traj : @Traj nat nat Z nat unit :=
  mkTraj [("robot0_eef_pos", Column [Leaf 0%nat; Leaf 1%nat])] [] [0; 0] [0; 0]
         [0; 1]%nat [0; 1]%nat (mkStateDict 0%nat (Some (Str "<mujoco/>")) (Some (Str "{}"))) [] None.

(** * Properties *)

(** ** Auxiliary facts *)

Lemma obind_Ok {A B : Type} (c : outcome A) (k : A -> outcome B) (b : B) :
  obind c k = Ok b -> exists a, c = Ok a /\ k a = Ok b.
Proof. destruct c as [a|e]; simpl; [eauto | discriminate]. Qed.

Lemma omap_Forall2 {A B : Type} (f : A -> outcome B) (l : list A) (r : list B) :
  omap f l = Ok r -> Forall2 (fun a b => f a = Ok b) l r.
Proof.
  revert r. induction l as [|a l IH]; intros r H; simpl in H.
  - injection H as <-. constructor.
  - destruct (f a) as [b|] eqn:Hb; simpl in H; [|discriminate].
    destruct (omap f l) as [bs|] eqn:Hbs; simpl in H; [|discriminate].
    injection H as <-. constructor; auto.
Qed.

Lemma omap_length {A B : Type} (f : A -> outcome B) (l : list A) (r : list B) :
  omap f l = Ok r -> length r = length l.
Proof.
  intros H. apply omap_Forall2 in H. symmetry. exact (Forall2_length _ _ _ H).
Qed.

Lemma wrap32_small (i : Z) : 0 <= i < 2 ^ 31 -> wrap32 i = i.
Proof.
  intros H. unfold wrap32.
  rewrite Z.mod_small; lia.
Qed.

(** ** The dispatcher *)

Lemma retrieve_new_index_empty (p : nat) (s : Shared) :
  work_queue s = [] -> retrieve_new_index p s = (Ok (-1), s).
Proof. intros H. unfold retrieve_new_index. now rewrite H. Qed.

Lemma retrieve_new_index_pop (p : nat) (s : Shared) (i : Z) (rest : list Z) :
  work_queue s = i :: rest ->
  (p < length (current_work_array s))%nat ->
  retrieve_new_index p s
  = (Ok i, mkShared rest (<[p := wrap32 i]> (current_work_array s))).
Proof.
  intros H Hp. unfold retrieve_new_index. rewrite H.
  destruct (decide (p < length (current_work_array s))%nat); [reflexivity | contradiction].
Qed.

Lemma claims_drain (callers : list nat) (s : Shared) :
  Forall (fun c => (c < length (current_work_array s))%nat) callers ->
  length callers = length (work_queue s) ->
  exists a, claims callers s = (map Ok (work_queue s), mkShared [] a)
            /\ length a = length (current_work_array s).
Proof.
  revert s. induction callers as [|c callers IH]; intros [q a] Hv Hlen; simpl in *.
  - destruct q; [|discriminate]. exists a. split; reflexivity.
  - destruct q as [|i q]; [discriminate|].
    apply Forall_cons_1 in Hv as [Hc Hv].
    rewrite (retrieve_new_index_pop c (mkShared (i :: q) a) i q eq_refl Hc). simpl.
    destruct (IH (mkShared q (<[c := wrap32 i]> a))) as (a' & Hcl & Hla); simpl.
    + eapply Forall_impl; [exact Hv|]. intros x Hx. simpl in *.
      now rewrite length_insert.
    + now injection Hlen.
    + rewrite Hcl. exists a'. split; [reflexivity|].
      simpl in Hla. rewrite Hla. apply length_insert.
Qed.

Lemma claims_app (c1 c2 : list nat) (s : Shared) :
  claims (c1 ++ c2) s
  = let '(r1, s1) := claims c1 s in
    let '(r2, s2) := claims c2 s1 in
    (r1 ++ r2, s2).
Proof.
  revert s. induction c1 as [|c c1 IH]; intros s; simpl.
  - now destruct (claims c2 s).
  - destruct (retrieve_new_index c s) as [r s1]. rewrite IH.
    destruct (claims c1 s1) as [r1 s2]. now destruct (claims c2 s2).
Qed.

(** C4: a claim on an empty queue answers [-1] and changes nothing; a claim
    on a queue [i :: rest] answers [i], leaves [rest] and stores [i] in the
    slot of the caller; and on a queue of [N] indices, [N] claims succeed, in
    queue order, before the next one answers [-1]. *)
Theorem retrieve_new_index_claims (callers : list nat) (p : nat) (s : Shared) :
  Forall (fun c => (c < length (current_work_array s))%nat) (callers ++ [p]) ->
  Forall (fun i => 0 <= i < 2 ^ 31) (work_queue s) ->
  length callers = length (work_queue s) ->
  match work_queue s with
  | [] => retrieve_new_index p s = (Ok (-1), s)
  | i :: rest =>
      retrieve_new_index p s = (Ok i, mkShared rest (<[p := i]> (current_work_array s)))
      /\ <[p := i]> (current_work_array s) !! p = Some i
  end
  /\ Forall (fun i => i <> -1) (work_queue s)
  /\ exists s', claims (callers ++ [p]) s = (map Ok (work_queue s) ++ [Ok (-1)], s')
                /\ work_queue s' = [].
Proof.
  intros Hv Hr Hlen.
  apply Forall_app in Hv as [Hv Hp]. apply Forall_cons_1 in Hp as [Hp _].
  split; [|split].
  - destruct (work_queue s) as [|i rest] eqn:Hq.
    + now apply retrieve_new_index_empty.
    + apply Forall_cons_1 in Hr as [Hi _]. split.
      * rewrite (retrieve_new_index_pop p s i rest Hq Hp). now rewrite wrap32_small.
      * now apply list_lookup_insert_eq.
  - eapply Forall_impl; [exact Hr|]. simpl. intros i Hi. lia.
  - destruct (claims_drain callers s Hv Hlen) as (a & Hcl & Hla).
    exists (mkShared [] a). rewrite claims_app, Hcl. simpl. split; reflexivity.
Qed.

Lemma retrieve_new_index_claims_witness :
  exists s', claims ([0; 0; 0] ++ [0])%nat (mkShared [0; 1; 2] [0])
             = (map Ok [0; 1; 2] ++ [Ok (-1)], s').
Proof.
  destruct (retrieve_new_index_claims [0; 0; 0]%nat 0%nat (mkShared [0; 1; 2] [0]))
    as (_ & _ & s' & H & _).
  - simpl. repeat constructor.
  - simpl. repeat constructor; lia.
  - reflexivity.
  - exists s'. exact H.
Defined.

(** C4, counterexample: a claim on a queue without indices does not fail
    with [EmptyQueue]; it returns [-1]. *)
Lemma claim_on_empty_queue_counterexample :
  ~ fails_with_EmptyQueue 0 (mkShared [] [0]).
Proof.
  intros H. specialize (H eq_refl). discriminate H.
Qed.

(** ** The extraction of one trajectory *)

Section ExtractorProofs.

Context {State Action Reward Sensor Info : Type} `{!Indexable State}.

Lemma done_signal_mode_1 (t : nat) (success : bool) :
  (t < traj_len)%nat -> done_signal 1 t success = 0.
Proof.
  intros Ht. unfold done_signal. simpl.
  destruct (Nat.eqb_spec t traj_len) as [->|_]; [lia | reflexivity].
Qed.

Lemma extract_step_done (env : @Env State Action Reward Sensor Info) sts acts
    done_mode args adi t o r d info :
  extract_step env sts acts done_mode args adi t = Ok (o, r, d, info) ->
  exists st, d = done_signal done_mode t (env_check_success env st).
Proof.
  unfold extract_step. intros H.
  apply obind_Ok in H as (st & _ & H).
  apply obind_Ok in H as (o1 & _ & H).
  apply obind_Ok in H as (o2 & _ & H).
  apply obind_Ok in H as (i & _ & H).
  injection H as _ _ <- _. now exists st.
Qed.

Lemma extract_trajectory_steps (env : @Env State Action Reward Sensor Info) ist sts acts
    done_mode args adi traj :
  extract_trajectory env ist sts acts done_mode args adi = Ok traj ->
  exists steps,
    omap (extract_step env sts acts done_mode args adi) (seq 0 traj_len) = Ok steps
    /\ rewards traj = map (fun s => snd (fst (fst s))) steps
    /\ dones traj = map (fun s => snd (fst s)) steps
    /\ actions traj = acts
    /\ states traj = sts.
Proof.
  unfold extract_trajectory. intros H.
  destruct (negb _); [discriminate|].
  apply obind_Ok in H as (? & _ & H).
  apply obind_Ok in H as (? & _ & H).
  apply obind_Ok in H as (steps & Hsteps & H).
  apply obind_Ok in H as (o & _ & H).
  apply obind_Ok in H as (isd & _ & H).
  injection H as <-. exists steps. cbn [rewards dones actions states].
  repeat split; [exact Hsteps | ..]; reflexivity.
Qed.

(** The numbers of entries of a trajectory that [extract_trajectory] returns:
    [traj_len] rewards and dones, and the recorded actions and states as they
    came, of which there are at least [traj_len]. *)
Lemma extract_trajectory_counts (env : @Env State Action Reward Sensor Info)
    ist sts acts done_mode args adi traj :
  extract_trajectory env ist sts acts done_mode args adi = Ok traj ->
  length (rewards traj) = traj_len /\ length (dones traj) = traj_len
  /\ actions traj = acts /\ states traj = sts
  /\ (traj_len <= length sts)%nat.
Proof.
  intros H. apply extract_trajectory_steps in H as (steps & Hsteps & Hr & Hd & Ha & Hs).
  rewrite Hr, Hd, !length_map, (omap_length _ _ _ Hsteps), length_seq.
  repeat split; try assumption.
  apply omap_Forall2 in Hsteps.
  assert (Hlast : (traj_len - 1)%nat ∈ seq 0 traj_len).
  { apply elem_of_seq. unfold traj_len. lia. }
  apply list_elem_of_lookup_1 in Hlast as [i Hi].
  destruct (Forall2_lookup_l _ _ _ _ _ Hsteps Hi) as (y & _ & Hy).
  unfold extract_step in Hy. apply obind_Ok in Hy as (st & Hst & _).
  unfold py_getitem in Hst.
  destruct (Z.ltb_spec (Z.of_nat (traj_len - 1)) 0); [lia|].
  destruct (Z.ltb_spec (Z.of_nat (traj_len - 1)) 0); [lia|].
  rewrite Nat2Z.id in Hst.
  destruct (sts !! (traj_len - 1)%nat) eqn:Hl; [|discriminate].
  apply lookup_lt_Some in Hl. unfold traj_len in *. lia.
Qed.

(** C10: with [done_mode = 1] a trajectory that [extract_trajectory]
    returns has [traj_len] dones, all of them 0: the loop variable stays
    below [traj_len], so the comparison [t == traj_len] never holds. *)
Theorem done_mode_1_dones_all_zero (env : @Env State Action Reward Sensor Info)
    ist sts acts args adi traj :
  extract_trajectory env ist sts acts 1 args adi = Ok traj ->
  length (dones traj) = traj_len /\ Forall (fun d => d = 0) (dones traj).
Proof.
  intros H. apply extract_trajectory_steps in H as (steps & Hsteps & _ & Hd & _).
  rewrite Hd. clear Hd. split.
  - rewrite length_map, (omap_length _ _ _ Hsteps). apply length_seq.
  - apply omap_Forall2 in Hsteps. apply Forall_map.
    assert (Hlt : Forall (fun t => (t < traj_len)%nat) (seq 0 traj_len)).
    { apply Forall_forall. intros t Ht. apply elem_of_seq in Ht. lia. }
    induction Hsteps as [|t [[[o r] d] info] ts ss Hstep _ IH]; constructor.
    + apply Forall_cons_1 in Hlt as [Ht _].
      apply extract_step_done in Hstep as [st ->]. simpl.
      now apply done_signal_mode_1.
    + apply IH. now apply Forall_cons_1 in Hlt as [_ Hlt].
Qed.

End ExtractorProofs.

Lemma done_mode_1_dones_all_zero_witness :
  exists traj,
    extract_trajectory sample_env (mkStateDict 0%nat (Some (Str "<mujoco/>")) None)
                       (seq 0 20) (seq 0 20) 1 sample_args false = Ok traj
    /\ length (dones traj) = traj_len /\ Forall (fun d => d = 0) (dones traj).
Proof.
  destruct (extract_trajectory sample_env (mkStateDict 0%nat (Some (Str "<mujoco/>")) None)
                               (seq 0 20) (seq 0 20) 1 sample_args false)
    as [traj|e] eqn:H.
  - exists traj. split; [reflexivity|].
    exact (done_mode_1_dones_all_zero _ _ _ _ _ _ _ H).
  - vm_compute in H. discriminate H.
Defined.

(** ** The worker *)

Section WorkerProofs.

Context {State Action Reward Sensor Info : Type} `{!Indexable State}.
Variable create_env : nat -> outcome (@Env State Action Reward Sensor Info).

(** The loop ends as soon as the work queue is empty, whatever [ind] is. *)
Lemma worker_loop_empty_queue fuel ds demos args p env ind
    (w : @World State Action Reward Sensor Info) :
  work_queue (shared w) = [] ->
  worker_loop create_env (S fuel) ds demos args p env ind w = Returns tt w.
Proof.
  intros H. simpl. rewrite H. reflexivity.
Qed.

Lemma try_block_replay_fails ds demos env args p ind
    (w : @World State Action Reward Sensor Info) e :
  replay_episode ds demos env args ind = Raise e ->
  try_block ds demos env args p ind w = (Raise e, w).
Proof. intros H. unfold try_block. now rewrite H. Qed.

(** C6, as the code has it: when the replay of the claimed index raises, the
    worker replaces its environment and goes on with the same index; the
    work queue, the assignment array and the output queue are as they were,
    so that no index is claimed and no record is enqueued. *)
Theorem failed_attempt_retries_same_index ds demos args p env ind
    (w : @World State Action Reward Sensor Info) e env' :
  replay_episode ds demos env args ind = Raise e ->
  create_env (envs_created w) = Ok env' ->
  work_queue (shared w) <> [] ->
  ind <> -1 ->
  loop_body create_env ds demos args p env ind w
  = Continue env' ind (mkWorld (shared w) (mul_queue w) (S (envs_created w)))
  /\ forall fuel,
      worker_loop create_env (S fuel) ds demos args p env ind w
      = worker_loop create_env fuel ds demos args p env' ind
          (mkWorld (shared w) (mul_queue w) (S (envs_created w))).
Proof.
  intros Hr Hc Hq Hi.
  assert (Hb : loop_body create_env ds demos args p env ind w
               = Continue env' ind (mkWorld (shared w) (mul_queue w) (S (envs_created w)))).
  { unfold loop_body. rewrite (try_block_replay_fails _ _ _ _ _ _ _ _ Hr).
    now rewrite Hc. }
  split; [exact Hb|]. intros fuel. cbn [worker_loop]. rewrite Hb.
  rewrite bool_decide_eq_false_2 by exact Hq.
  destruct (Z.eqb_spec ind (-1)) as [?|_]; [contradiction|]. reflexivity.
Qed.

(** A worker that holds no index leaves the loop at once. *)
Lemma worker_loop_no_index fuel ds demos args p env
    (w : @World State Action Reward Sensor Info) e w1 :
  worker_loop create_env fuel ds demos args p env (-1) w <> Raises e w1.
Proof.
  destruct fuel as [|fuel]; simpl; [discriminate|].
  rewrite andb_false_r. discriminate.
Qed.

(** When an exception leaves the loop, the slot of the worker holds the
    index that left the queue last, and the queue is what came after it. *)
Lemma worker_loop_escape fuel ds demos args p :
  forall env ind (w : @World State Action Reward Sensor Info) e w1,
    current_work_array (shared w) !! p = Some ind ->
    Forall (fun i => 0 <= i < 2 ^ 31) (work_queue (shared w)) ->
    worker_loop create_env fuel ds demos args p env ind w = Raises e w1 ->
    exists done ind',
      ind :: work_queue (shared w) = done ++ ind' :: work_queue (shared w1)
      /\ current_work_array (shared w1) !! p = Some ind'.
Proof.
  induction fuel as [|fuel IH]; intros env ind w e w1 Hslot Hrange H; [discriminate|].
  cbn [worker_loop] in H.
  destruct (negb (bool_decide (work_queue (shared w) = [])) && negb (ind =? -1));
    [|discriminate].
  unfold loop_body, try_block in H.
  destruct (replay_episode ds demos env args ind) as [[ep traj]|x].
  - destruct (work_queue (shared w)) as [|j rest] eqn:Hq.
    + rewrite (retrieve_new_index_empty p (shared w) Hq) in H.
      now apply worker_loop_no_index in H.
    + apply Forall_cons_1 in Hrange as [Hj Hrange].
      rewrite (retrieve_new_index_pop p (shared w) j rest Hq
                 (lookup_lt_Some _ _ _ Hslot)) in H.
      rewrite (wrap32_small j Hj) in H.
      apply IH in H as (done & ind' & Hd & Hs); cbn [shared work_queue current_work_array].
      * cbn [shared work_queue] in Hd. exists (ind :: done), ind'.
        simpl. rewrite Hd. split; [reflexivity | exact Hs].
      * apply list_lookup_insert_eq. exact (lookup_lt_Some _ _ _ Hslot).
      * exact Hrange.
  - destruct (create_env (envs_created w)) as [env'|e'].
    + apply IH in H as (done & ind' & Hd & Hs); [|exact Hslot|exact Hrange].
      exists done, ind'. split; assumption.
    + injection H as _ <-. exists [], ind. split; [reflexivity | exact Hslot].
Qed.

(** C7, as the code has it: a worker that has a slot and gets its first
    environment claims its first index before anything can fail.  When an
    exception then leaves [extract_multiple_trajectories_with_error], it
    comes from the handler of the loop; [extract_multiple_trajectories]
    returns, and the index that the worker has claimed last, which is what
    its slot holds, is back at the end of the work queue, once. *)
Theorem escaped_exception_requeues_last_claimed_index fuel ds args p env
    (w : @World State Action Reward Sensor Info) :
  create_env (envs_created w) = Ok env ->
  (p < length (current_work_array (shared w)))%nat ->
  Forall (fun i => 0 <= i < 2 ^ 31) (work_queue (shared w)) ->
  requeues_last_claimed_index create_env fuel ds args p w.
Proof.
  intros Hc Hp Hrange e w1 H.
  unfold extract_multiple_trajectories. rewrite H.
  unfold extract_multiple_trajectories_with_error in H. rewrite Hc in H.
  cbn [shared mul_queue envs_created] in H.
  destruct (work_queue (shared w)) as [|i rest0] eqn:Hq.
  - rewrite (retrieve_new_index_empty p (shared w) Hq) in H.
    now apply worker_loop_no_index in H.
  - apply Forall_cons_1 in Hrange as [Hi Hrange].
    rewrite (retrieve_new_index_pop p (shared w) i rest0 Hq Hp) in H.
    rewrite (wrap32_small i Hi) in H.
    apply worker_loop_escape in H as (done & ind & Hd & Hs);
      cbn [shared work_queue current_work_array] in *.
    + rewrite Hs. eexists. split; [reflexivity|].
      exists done, ind, (work_queue (shared w1)).
      cbn [shared work_queue current_work_array]. rewrite Hq. auto.
    + now apply list_lookup_insert_eq.
    + exact Hrange.
Qed.

End WorkerProofs.

Lemma failed_attempt_retries_same_index_witness :
  loop_body flaky_sim sample_dataset ["demo_0"; "demo_1"; "demo_2"] sample_args 0
            broken_env 0 (mkWorld (mkShared [1; 2] [0]) [] 1)
  = Continue sample_env 0 (mkWorld (mkShared [1; 2] [0]) [] 2).
Proof.
  refine (proj1 (failed_attempt_retries_same_index flaky_sim sample_dataset
                   ["demo_0"; "demo_1"; "demo_2"] sample_args 0%nat broken_env 0
                   (mkWorld (mkShared [1; 2] [0]) [] 1) SimulatorError sample_env
                   _ _ _ _)).
  - vm_compute. reflexivity.
  - reflexivity.
  - simpl. discriminate.
  - lia.
Defined.

(** C6, counterexample: worker 0 holds index 0, indices 1 and 2 wait in the
    queue, and the replay of index 0 raises.  The loop goes on with index 0,
    not with index 1. *)
Lemma failed_attempt_next_index_counterexample :
  ~ continues_with_next_claimed_index flaky_sim sample_dataset
      ["demo_0"; "demo_1"; "demo_2"] sample_args 0 broken_env 0
      (mkWorld (mkShared [1; 2] [0]) [] 1).
Proof.
  intros H. destruct (H SimulatorError) as (env' & ind' & s' & Hc & Hb).
  - vm_compute. reflexivity.
  - vm_compute in Hc. injection Hc as <- <-.
    vm_compute in Hb. discriminate Hb.
Qed.

Lemma escaped_exception_requeues_last_claimed_index_witness :
  exists w',
    extract_multiple_trajectories one_env_sim 10 short_second_dataset sample_args 0
      (sample_world [0; 1; 2]) = Returns tt w'
    /\ last_claimed_index_requeued 0 (sample_world [0; 1; 2]) w'
    /\ work_queue (shared w') = [2; 1]
    /\ map (fun it => fst (fst it)) (mul_queue w') = ["demo_0"].
Proof.
  destruct (extract_multiple_trajectories_with_error one_env_sim 10 short_second_dataset
              sample_args 0 (sample_world [0; 1; 2])) as [u w1|e w1|] eqn:Hin;
    [vm_compute in Hin; discriminate Hin | | vm_compute in Hin; discriminate Hin].
  destruct (escaped_exception_requeues_last_claimed_index one_env_sim 10
              short_second_dataset sample_args 0%nat sample_env (sample_world [0; 1; 2])
              eq_refl) with (e := e) (w1 := w1) as (w' & Hrun & Hlast).
  - simpl. lia.
  - simpl. repeat constructor; lia.
  - exact Hin.
  - exists w'. split; [exact Hrun|]. split; [exact Hlast|].
    vm_compute in Hrun. injection Hrun as <-. split; reflexivity.
Defined.

(** C7, counterexample: no environment can be created, so that the worker
    fails before its first claim.  It has claimed no index, and the handler
    still appends the content of its slot: the queue [0; 1; 2] becomes
    [0; 1; 2; 0]. *)
Lemma unclaimed_index_requeued_counterexample :
  ~ requeues_last_claimed_index dead_sim 10 sample_dataset sample_args 0
      (sample_world [0; 1; 2]).
Proof.
  intros H.
  destruct (H SimulatorError (sample_world [0; 1; 2]))
    as (w' & Hrun & front & ind & rest & Hq & Hq' & _).
  - vm_compute. reflexivity.
  - vm_compute in Hrun. injection Hrun as <-.
    cbn [shared work_queue sample_world] in Hq, Hq'.
    apply (f_equal length) in Hq, Hq'. rewrite length_app in Hq, Hq'.
    simpl in Hq, Hq'. lia.
Qed.

(** ** Runs on the sample archive *)

(** C5, evaluated: three indices wait in the queue and every replay succeeds.
    The worker returns with the records of [demo_0] and [demo_1] only: index
    2 has left the queue and sits in the worker's slot, but the loop ended
    on the empty queue before replaying it, and nothing put it back. *)
Theorem last_claimed_index_dropped :
  exists w',
    extract_multiple_trajectories sample_sim 10 sample_dataset sample_args 0
      (sample_world [0; 1; 2]) = Returns tt w'
    /\ map (fun it => fst (fst it)) (mul_queue w') = ["demo_0"; "demo_1"]
    /\ shared w' = mkShared [] [2].
Proof.
  eexists. split; [vm_compute; reflexivity|]. split; reflexivity.
Qed.

(** C1, evaluated: the driver on an archive of three episodes, with one
    worker and an empty durable queue.  It returns without an output file,
    and the durable queue holds the records of two of the three episodes. *)
Theorem driver_writes_no_output :
  exists w',
    dataset_states_to_obs_multiprocessing sample_sim 10 sample_args sample_dataset []
    = Returns None w'
    /\ map (fun it => fst (fst it)) (mul_queue w') = ["demo_0"; "demo_1"]
    /\ work_queue (shared w') = [].
Proof.
  eexists. split; [vm_compute; reflexivity|]. split; reflexivity.
Qed.

(** The driver returns no output file on any input. *)
Lemma driver_output_none {State Action Reward Sensor Info : Type}
    `{!Indexable State}
    (create_env : nat -> outcome (@Env State Action Reward Sensor Info))
    fuel args ds persisted o w :
  dataset_states_to_obs_multiprocessing create_env fuel args ds persisted = Returns o w ->
  o = None.
Proof.
  unfold dataset_states_to_obs_multiprocessing.
  destruct (extract_multiple_trajectories _ _ _ _ _ _); intros H;
    [injection H as <- _; reflexivity | discriminate | discriminate].
Qed.

(** A failed write of the record at the head of the queue ends the loop
    of the writer, whatever the expected count and the rest of the queue. *)
Lemma writer_loop_first_fails {State Action Reward Sensor Info : Type}
    args (ds : @Dataset State Action Reward) ep traj pn
    (q : list (@Item State Action Reward Sensor Info))
    num_processed total_samples groups e :
  (num_processed < total_samples)%nat ->
  write_group args ds groups ep traj = Raise e ->
  writer_loop args ds ((ep, traj, pn) :: q) num_processed total_samples groups
  = Aborted (PyException "Write out to file has failed").
Proof.
  intros Hlt Hw. simpl. rewrite Hw.
  destruct (Nat.ltb_spec num_processed total_samples); [reflexivity | lia].
Qed.

(** C2, evaluated: an episode of 21 recorded transitions, replayed by the
    worker.  The datasets that the writer creates for the record hold 21
    actions and 21 states, 20 rewards, 20 dones and 20 observations.  The
    write then fails on the attribute [model_file], which the extraction has
    turned into an array of dtype [<U]: [num_samples] is never written, and
    the exception leaves the writer. *)
Theorem group_transition_counts_differ :
  exists traj g,
    replay_episode long_dataset ["demo_0"] sample_env sample_args 0 = Ok ("demo_0", traj)
    /\ write_datasets sample_args long_dataset [] "demo_0" traj = Ok g
    /\ map (fun d => (fst d, entries (snd d))) (g_datasets g)
       = [("actions", 21); ("states", 21); ("rewards", 20); ("dones", 20);
          ("obs/robot0_eef_pos", 20)]%nat
    /\ g_num_samples g = None
    /\ write_group sample_args long_dataset [] "demo_0" traj = Raise TypeError
    /\ write_traj_to_file sample_args long_dataset 1 [("demo_0", traj, 0%nat)]
       = Failed (PyException "Write out to file has failed").
Proof.
  eexists. eexists.
  split; [vm_compute; reflexivity|].
  split; [vm_compute; reflexivity|].
  split; [reflexivity|].
  split; [reflexivity|].
  split; vm_compute; reflexivity.
Qed.

(** C3, evaluated: the writer is given the records that the worker of the
    driver has put in the durable queue for the sample archive, those of
    [demo_0] and [demo_1].  Whatever the expected count, the write of the
    first record fails on the attribute [model_file], and the exception
    [Write out to file has failed] leaves the writer: no second record is
    taken, the mask is not copied and no derivative archive is produced. *)
Theorem writer_fails_on_first_record :
  exists w' first rest,
    dataset_states_to_obs_multiprocessing sample_sim 10 sample_args sample_dataset []
    = Returns None w'
    /\ mul_queue w' = first :: rest
    /\ map (fun it => fst (fst it)) (mul_queue w') = ["demo_0"; "demo_1"]
    /\ write_group sample_args sample_dataset [] (fst (fst first)) (snd (fst first))
       = Raise TypeError
    /\ forall total_samples,
        (0 < total_samples)%nat ->
        write_traj_to_file sample_args sample_dataset total_samples (mul_queue w')
        = Failed (PyException "Write out to file has failed").
Proof.
  eexists. eexists. eexists.
  split; [vm_compute; reflexivity|].
  split; [reflexivity|].
  split; [reflexivity|].
  split; [vm_compute; reflexivity|].
  intros [|T] HT; [lia|]. vm_compute. reflexivity.
Qed.

(** In general the writer returns after [T] records only when the records it
    has written hold no action at all: once a record with an action has been
    written, the bound stays ahead of the count. *)
Lemma writer_loop_bound_grows {State Action Reward Sensor Info : Type}
    args (ds : @Dataset State Action Reward) (q : list (@Item State Action Reward Sensor Info))
    num_processed total_samples groups :
  (num_processed < total_samples)%nat ->
  Forall (fun it => actions (snd (fst it)) <> []) q ->
  match writer_loop args ds q num_processed total_samples groups with
  | Drained _ _ _ _ => False
  | _ => True
  end.
Proof.
  revert num_processed total_samples groups.
  induction q as [|[[ep traj] pn] q IH]; intros np ts groups Hlt Hne; simpl.
  - destruct (Nat.ltb_spec np ts); [exact I | lia].
  - destruct (Nat.ltb_spec np ts); [|lia].
    apply Forall_cons_1 in Hne as [Hn Hne]. simpl in Hn.
    destruct (write_group args ds groups ep traj) as [[g n]|] eqn:Hw; [|exact I].
    apply IH; [|exact Hne].
    assert (n = length (actions traj)) as ->.
    { unfold write_group in Hw.
      repeat (apply obind_Ok in Hw as (? & _ & Hw)).
      now injection Hw as _ <-. }
    destruct (actions traj); [contradiction | simpl; lia].
Qed.

(** ** XML trees: selection and update *)

Lemma attr_get_set_eq (key value : string) (a : list (string * string)) :
  attr_get key (attr_set key value a) = Some value.
Proof.
  induction a as [|[k v] a IH]; simpl.
  - destruct (decide (key = key)); [reflexivity | contradiction].
  - destruct (decide (k = key)) as [Heq|Hne]; simpl.
    + destruct (decide (k = key)); [reflexivity | contradiction].
    + destruct (decide (k = key)); [contradiction | exact IH].
Qed.

Lemma attr_get_set_ne (key key' value : string) (a : list (string * string)) :
  key <> key' -> attr_get key' (attr_set key value a) = attr_get key' a.
Proof.
  intros Hne. induction a as [|[k v] a IH]; simpl.
  - destruct (decide (key = key')); [contradiction | reflexivity].
  - destruct (decide (k = key)) as [Heq|Hne']; simpl.
    + destruct (decide (k = key')); [congruence | reflexivity].
    + destruct (decide (k = key')); [reflexivity | exact IH].
Qed.

Lemma attr_set_set (key v1 v2 : string) (a : list (string * string)) :
  attr_set key v2 (attr_set key v1 a) = attr_set key v2 a.
Proof.
  induction a as [|[k v] a IH]; simpl.
  - destruct (decide (key = key)); [reflexivity | contradiction].
  - destruct (decide (k = key)) as [Heq|Hne]; simpl.
    + destruct (decide (k = key)); [reflexivity | contradiction].
    + destruct (decide (k = key)); [contradiction | now rewrite IH].
Qed.

Lemma get_set_eq (key value : string) (e : element) :
  get key (set key value e) = Some value.
Proof. destruct e. apply attr_get_set_eq. Qed.

Lemma get_set_ne (key key' value : string) (e : element) :
  key <> key' -> get key' (set key value e) = get key' e.
Proof. destruct e. apply attr_get_set_ne. Qed.

Lemma set_set (key v1 v2 : string) (e : element) :
  set key v2 (set key v1 e) = set key v2 e.
Proof. destruct e. unfold set. simpl. now rewrite attr_set_set. Qed.

Section UpdateFirst.

Context {A B : Type}.
Variable u : A -> option (outcome A).
Variable s : A -> option B.

(** An update of the element that a selector finds: the selector finds the
    updated element in the new list. *)
Lemma update_first_none (l : list A) :
  (forall a, u a = None -> s a = None) ->
  update_first u l = None -> first_some s l = None.
Proof.
  intros Hn. induction l as [|a l IH]; simpl; [reflexivity|].
  destruct (u a) as [[a'|e]|] eqn:Hu; try discriminate.
  rewrite (Hn a Hu).
  destruct (update_first u l) as [[r|e]|]; try discriminate. auto.
Qed.

Lemma update_first_sel (R : B -> B -> Prop) (l l' : list A) :
  (forall a, u a = None -> s a = None) ->
  (forall a a', u a = Some (Ok a') -> exists t t', s a = Some t /\ s a' = Some t' /\ R t t') ->
  update_first u l = Some (Ok l') ->
  exists t t', first_some s l = Some t /\ first_some s l' = Some t' /\ R t t'.
Proof.
  intros Hn Hs. revert l'. induction l as [|a l IH]; intros l' H; simpl in H.
  - discriminate.
  - destruct (u a) as [[a'|e]|] eqn:Hu; try discriminate.
    + injection H as <-. destruct (Hs a a' Hu) as (t & t' & Ht & Ht' & HR).
      exists t, t'. simpl. now rewrite Ht, Ht'.
    + destruct (update_first u l) as [[r|e]|]; try discriminate.
      injection H as <-. destruct (IH r eq_refl) as (t & t' & Ht & Ht' & HR).
      exists t, t'. simpl. now rewrite (Hn a Hu).
Qed.

(** A selector that does not see the update answers as before. *)
Lemma update_first_other (l l' : list A) :
  (forall a a', u a = Some (Ok a') -> s a' = s a) ->
  update_first u l = Some (Ok l') -> first_some s l' = first_some s l.
Proof.
  intros Hs. revert l'. induction l as [|a l IH]; intros l' H; simpl in H.
  - discriminate.
  - destruct (u a) as [[a'|e]|] eqn:Hu; try discriminate.
    + injection H as <-. simpl. now rewrite (Hs a a' Hu).
    + destruct (update_first u l) as [[r|e]|]; try discriminate.
      injection H as <-. simpl. now rewrite (IH r eq_refl).
Qed.

End UpdateFirst.

Section Descend.

Context {B : Type}.
Variable t : string.
Variable u : element -> option (outcome element).
Variable s : element -> option B.

Lemma descend_update_none (e : element) :
  (forall a, u a = None -> s a = None) ->
  descend_update t u e = None -> descend t s e = None.
Proof.
  intros Hn. unfold descend_update, descend.
  destruct (decide (tag e = t)); [|reflexivity].
  destruct (update_first u (children e)) as [[c|x]|] eqn:Hu; try discriminate.
  intros _. now apply (update_first_none u s).
Qed.

Lemma descend_update_sel (R : B -> B -> Prop) (e e' : element) :
  (forall a, u a = None -> s a = None) ->
  (forall a a', u a = Some (Ok a') -> exists x x', s a = Some x /\ s a' = Some x' /\ R x x') ->
  descend_update t u e = Some (Ok e') ->
  exists x x', descend t s e = Some x /\ descend t s e' = Some x' /\ R x x'.
Proof.
  intros Hn Hs. unfold descend_update, descend.
  destruct (decide (tag e = t)) as [Ht|]; [|discriminate].
  destruct (update_first u (children e)) as [[c|x]|] eqn:Hu; try discriminate.
  intros H. injection H as <-. simpl.
  destruct (decide (tag e = t)); [|contradiction].
  now apply (update_first_sel u s R).
Qed.

Lemma descend_update_other {C : Type} (t' : string) (s' : element -> option C)
    (e e' : element) :
  (forall a a', u a = Some (Ok a') -> s' a' = s' a) ->
  descend_update t u e = Some (Ok e') ->
  descend t' s' e' = descend t' s' e.
Proof.
  intros Hs. unfold descend_update, descend.
  destruct (decide (tag e = t)) as [Ht|]; [|discriminate].
  destruct (update_first u (children e)) as [[c|x]|] eqn:Hu; try discriminate.
  intros H. injection H as <-. simpl.
  destruct (decide (tag e = t')); [|reflexivity].
  now apply (update_first_other u s').
Qed.

End Descend.

(** ** Paths *)

Lemma split_on_nonempty (sep : ascii) (s : string) : split_on sep s <> [].
Proof.
  destruct s as [|c s]; simpl; [discriminate|].
  destruct (decide (c = sep)); [discriminate|].
  destruct (split_on sep s); discriminate.
Qed.

Lemma join_with_cons (sep c : ascii) (h : string) (l : list string) :
  join_with sep (String c h :: l) = String c (join_with sep (h :: l)).
Proof. destruct l; reflexivity. Qed.

Lemma join_split_on (sep : ascii) (s : string) : join_with sep (split_on sep s) = s.
Proof.
  induction s as [|c s IH]; simpl; [reflexivity|].
  pose proof (split_on_nonempty sep s) as Hne.
  destruct (decide (c = sep)) as [->|Hc];
    destruct (split_on sep s) as [|h l]; try contradiction.
  - change (join_with sep (EmptyString :: h :: l))
      with (String sep (join_with sep (h :: l))).
    now rewrite IH.
  - now rewrite join_with_cons, IH.
Qed.

(** Joining the components of a path gives the path back. *)
Lemma join_split_slash (s : string) : join_slash (split_slash s) = s.
Proof. apply join_split_on. Qed.

Lemma check_lst_spec (v : string) (l : list string) (i : nat) :
  i ∈ check_lst v l <-> l !! i = Some v.
Proof.
  unfold check_lst. rewrite list_elem_of_fmap. split.
  - intros ([j x] & -> & H). apply list_elem_of_filter in H as [Hx H].
    apply elem_of_lookup_imap in H as (k & y & Heq & Hl).
    injection Heq as -> ->. simpl in *. now subst.
  - intros H. exists (i, v). split; [reflexivity|].
    apply list_elem_of_filter. split; [reflexivity|].
    apply elem_of_lookup_imap. now exists i, v.
Qed.

(** The replacement keeps what follows the last occurrence of the
    component. *)
Lemma replace_prefix_last (component : string) (new_prefix pre suf : list string) :
  component ∉ suf ->
  replace_prefix component new_prefix (pre ++ component :: suf)
  = Some (join_slash (new_prefix ++ suf)).
Proof.
  intros Hsuf. unfold replace_prefix.
  set (l := pre ++ component :: suf).
  assert (Hin : length pre ∈ check_lst component l).
  { apply check_lst_spec. apply list_lookup_middle. reflexivity. }
  assert (Hmax : max_list (check_lst component l) = length pre).
  { apply Nat.le_antisymm; [|now apply max_list_elem_of_le].
    assert (Hm : max_list (check_lst component l) ∈ check_lst component l).
    { apply max_list_elem_of. intros Hnil. rewrite Hnil in Hin.
      now apply not_elem_of_nil in Hin. }
    apply check_lst_spec in Hm. apply Nat.nlt_ge. intros Hgt.
    unfold l in Hm, Hgt. rewrite lookup_app_r in Hm by lia.
    destruct (max_list (check_lst component (pre ++ component :: suf)) - length pre)%nat
      as [|k] eqn:Hk; [lia|].
    simpl in Hm. apply list_elem_of_lookup_2 in Hm. contradiction. }
  destruct (check_lst component l) as [|i lst] eqn:Hl.
  - now apply not_elem_of_nil in Hin.
  - simpl length. cbn [Nat.ltb Nat.leb]. rewrite Hmax. f_equal. f_equal. f_equal.
    unfold l. rewrite Nat.add_1_r.
    change (component :: suf) with ([component] ++ suf).
    rewrite app_assoc. apply drop_app_length'. rewrite length_app. simpl. lia.
Qed.

Lemma replace_prefix_absent (component : string) (new_prefix l : list string) :
  component ∉ l -> replace_prefix component new_prefix l = None.
Proof.
  intros Hl. unfold replace_prefix.
  destruct (check_lst component l) as [|i lst] eqn:Hc; [reflexivity|].
  exfalso. apply Hl.
  assert (Hi : i ∈ check_lst component l) by (rewrite Hc; left).
  apply check_lst_spec in Hi. now apply list_elem_of_lookup_2 in Hi.
Qed.

(** ** [postprocess_model_xml] *)

Lemma postprocess_elem_spec (rs zoo : string) (e : element) :
  is_mesh_or_texture e = true ->
  file_rewritten rs zoo e (postprocess_elem rs zoo e).
Proof.
  intros Hmt. split; [congruence|]. intros _. unfold postprocess_elem.
  destruct (get "file" e) as [old_path|]; [|reflexivity]. cbv zeta.
  split; [|split].
  - intros pre suf Hold Hsuf. rewrite Hold.
    rewrite replace_prefix_last by exact Hsuf.
    destruct (replace_prefix "robosuite" _ _); [apply set_set | reflexivity].
  - intros Hzoo pre suf Hold Hsuf.
    rewrite (replace_prefix_absent "robosuite-model-zoo-dev") by exact Hzoo.
    rewrite Hold. now rewrite replace_prefix_last by exact Hsuf.
  - intros Hzoo Hrs.
    rewrite (replace_prefix_absent "robosuite-model-zoo-dev") by exact Hzoo.
    now rewrite (replace_prefix_absent "robosuite") by exact Hrs.
Qed.

Lemma update_asset_find (f : list element -> outcome (list element)) (root root' : element) :
  update_asset f root = Ok root' ->
  exists asset c,
    find "asset" root = Some asset
    /\ f (children asset) = Ok c
    /\ find "asset" root' = Some (Element (tag asset) (attrib asset) c)
    /\ tag root' = tag root /\ attrib root' = attrib root.
Proof.
  unfold update_asset, find. intros H.
  destruct (update_first _ (children root)) as [[c|x]|] eqn:Hu; try discriminate.
  simpl in H. injection H as <-.
  eapply (update_first_sel _ (has_tag "asset")
            (fun a a' => exists c', f (children a) = Ok c'
                                    /\ a' = Element (tag a) (attrib a) c'))
    in Hu as (a & a' & Ha & Ha' & c' & Hf & ->).
  - exists a, c'. simpl. auto.
  - intros a. unfold has_tag. destruct (decide (tag a = "asset")); [discriminate | reflexivity].
  - intros a a'. unfold has_tag. destruct (decide (tag a = "asset")) as [Ht|]; [|discriminate].
    destruct (f (children a)) as [c'|] eqn:Hf; simpl; [|discriminate].
    intros H. injection H as <-. exists a, (Element (tag a) (attrib a) c'). simpl.
    destruct (decide (tag a = "asset")); [|contradiction]. eauto.
Qed.

(** C9, as the code has it: in the asset section every mesh or texture with a
    [file] attribute holding the component [robosuite-model-zoo-dev] gets the
    parent directory of the installed [robosuite_model_zoo] package in place
    of the path up to the last such component; failing that, one holding the
    component [robosuite] gets the directory of the installed [robosuite]
    package in place of the path up to the last such component; what follows
    the component stays, and every other child is unchanged. *)
Theorem postprocess_rewrites_asset_files (rs zoo : string) (root root' : element) :
  postprocess_model_xml rs zoo root = Ok root' ->
  exists asset asset',
    find "asset" root = Some asset
    /\ find "asset" root' = Some asset'
    /\ tag asset' = tag asset
    /\ attrib asset' = attrib asset
    /\ Forall2 (file_rewritten rs zoo) (children asset) (children asset').
Proof.
  intros H. apply update_asset_find in H as (asset & c & Hfind & Hc & Hfind' & _).
  injection Hc as <-.
  exists asset, (Element (tag asset) (attrib asset)
                   (map (fun c => if is_mesh_or_texture c then postprocess_elem rs zoo c else c)
                        (children asset))).
  repeat split; try assumption. simpl.
  apply Forall2_fmap_r, Forall_Forall2_diag, Forall_forall.
  intros e _. unfold compose. destruct (is_mesh_or_texture e) eqn:Hmt.
  - now apply postprocess_elem_spec.
  - split; [reflexivity | congruence].
Qed.

Lemma postprocess_rewrites_asset_files_witness :
  exists root' asset asset',
    postprocess_model_xml "/opt/py/robosuite" "/opt/zoo/robosuite_model_zoo" sample_model
    = Ok root'
    /\ find "asset" sample_model = Some asset
    /\ find "asset" root' = Some asset'
    /\ Forall2 (file_rewritten "/opt/py/robosuite" "/opt/zoo/robosuite_model_zoo")
               (children asset) (children asset').
Proof.
  destruct (postprocess_model_xml "/opt/py/robosuite" "/opt/zoo/robosuite_model_zoo"
              sample_model) as [root'|e] eqn:H.
  - destruct (postprocess_rewrites_asset_files _ _ _ _ H)
      as (asset & asset' & H1 & H2 & _ & _ & H3).
    exists root', asset, asset'. auto.
  - vm_compute in H. discriminate H.
Defined.

(** C9, counterexample: with [robosuite_model_zoo] installed in
    [/opt/zoo/robosuite_model_zoo], the mesh [m] of the sample model ends up
    in [/opt/zoo/assets], not below the directory of the package; and the
    texture [t], whose path holds both components, keeps nothing of the
    replacement for [robosuite]. *)
Lemma postprocess_paths_counterexample :
  exists root' asset asset' m m' t t',
    postprocess_model_xml "/opt/py/robosuite" "/opt/zoo/robosuite_model_zoo" sample_model
    = Ok root'
    /\ find "asset" sample_model = Some asset
    /\ find "asset" root' = Some asset'
    /\ children asset !! 0%nat = Some m /\ children asset' !! 0%nat = Some m'
    /\ children asset !! 1%nat = Some t /\ children asset' !! 1%nat = Some t'
    /\ get "file" m' = Some "/opt/zoo/assets/can/can.obj"
    /\ get "file" t' = Some "/opt/zoo/assets/can/tex.png"
    /\ ~ zoo_rewritten_as_stated "/opt/zoo/robosuite_model_zoo" m m'
    /\ ~ robosuite_rewritten_as_stated "/opt/py/robosuite" t t'
    /\ ~ Forall2 (file_rewritten_as_stated "/opt/py/robosuite" "/opt/zoo/robosuite_model_zoo")
                 (children asset) (children asset').
Proof.
  assert (Hz : "robosuite-model-zoo-dev" ∉ ["assets"; "can"; "can.obj"]) by compute_done.
  assert (Hr : "robosuite" ∉ ["tmp"; "robosuite-model-zoo-dev"; "assets"; "can"; "tex.png"])
    by compute_done.
  do 7 eexists.
  split; [vm_compute; reflexivity|].
  split; [vm_compute; reflexivity|].
  split; [vm_compute; reflexivity|].
  do 4 (split; [reflexivity|]).
  split; [reflexivity|]. split; [reflexivity|].
  assert (Hm : ~ zoo_rewritten_as_stated "/opt/zoo/robosuite_model_zoo"
                 (Element "mesh" [("file", "/home/u/robosuite-model-zoo-dev/assets/can/can.obj");
                                  ("name", "can_mesh")] [])
                 (Element "mesh" [("file", "/opt/zoo/assets/can/can.obj");
                                  ("name", "can_mesh")] [])).
  { intros H.
    specialize (H eq_refl _ [""; "home"; "u"] ["assets"; "can"; "can.obj"]
                  eq_refl eq_refl Hz).
    vm_compute in H. discriminate H. }
  split; [exact Hm|]. split.
  - intros H.
    specialize (H eq_refl _ [""; "data"]
                  ["tmp"; "robosuite-model-zoo-dev"; "assets"; "can"; "tex.png"]
                  eq_refl eq_refl Hr).
    vm_compute in H. discriminate H.
  - intros H. inversion H as [|e e' l l' [_ He] _]; subst. exact (Hm He).
Qed.

(** ** The constructor of [MJCFObject] *)

Lemma update_asset_find_site (f : list element -> outcome (list element))
    (root root' : element) (n : string) :
  update_asset f root = Ok root' -> find_site n root' = find_site n root.
Proof.
  unfold update_asset, find_site. intros H.
  destruct (update_first _ (children root)) as [[c|x]|] eqn:Hu; try discriminate.
  simpl in H. injection H as <-. simpl.
  eapply update_first_other; [|exact Hu].
  intros a a' Ha. simpl in Ha.
  destruct (decide (tag a = "asset")) as [Ht|]; [|discriminate].
  destruct (f (children a)) as [c'|]; simpl in Ha; [|discriminate].
  injection Ha as <-. unfold descend. simpl. rewrite Ht.
  destruct (decide ("asset" = "worldbody")); [discriminate | reflexivity].
Qed.

Lemma Forall2_findall (P : element -> element -> Prop) (t : string) (l k : list element) :
  (forall x y, P x y -> tag y = tag x) ->
  Forall2 P l k ->
  Forall2 (fun x y => P x y /\ tag x = t)
          (filter (fun c => tag c = t) l) (filter (fun c => tag c = t) k).
Proof.
  intros Ht. induction 1 as [|x y l k Hxy _ IH]; [constructor|].
  rewrite !filter_cons. rewrite (Ht x y Hxy).
  destruct (decide (tag x = t)); [constructor; auto | exact IH].
Qed.

Section MJCFObjectProofs.

Context {R : Type}.
Variable mul : R -> R -> R.
Variable string_to_array : string -> outcome (list R).
Variable array_to_string : list R -> string.
Variables robosuite_path robosuite_model_zoo_path : string.

Local Abbreviation scale_site := (scale_site mul string_to_array array_to_string).
Local Abbreviation scale_mesh := (scale_mesh mul string_to_array array_to_string).
Local Abbreviation update_site := (update_site mul string_to_array array_to_string).
Local Abbreviation update_sites := (update_sites mul string_to_array array_to_string).
Local Abbreviation site_update := (site_update mul string_to_array array_to_string).
Local Abbreviation mesh_scaled := (mesh_scaled mul string_to_array array_to_string).
Local Abbreviation site_scaled := (site_scaled mul string_to_array array_to_string).

Lemma scale_site_spec (s : list R) (site site' : element) :
  scale_site s site = Ok site' ->
  site_scaled s site site' /\ tag site' = tag site /\ get "name" site' = get "name" site.
Proof.
  unfold scale_site. intros H.
  apply obind_Ok in H as (pos & Hpos & H).
  apply obind_Ok in H as (a & Ha & H).
  apply obind_Ok in H as (p & Hp & H).
  injection H as <-. split; [|split].
  - exists pos, a, p. destruct (get "pos" site) as [pos'|]; [|discriminate].
    injection Hpos as ->. repeat split; try assumption. apply get_set_eq.
  - reflexivity.
  - now apply get_set_ne.
Qed.

Lemma scale_mesh_spec (s : list R) (m m' : element) :
  scale_mesh s m = Ok m' ->
  mesh_scaled s m m' /\ tag m' = tag m.
Proof.
  unfold scale_mesh, mesh_scaled. intros H.
  apply obind_Ok in H as (p & Hp & H). injection H as <-.
  split; [|reflexivity].
  destruct (get "scale" m) as [ex|].
  - apply obind_Ok in Hp as (a & Ha & Hp). exists a, p.
    repeat split; try assumption. apply get_set_eq.
  - injection Hp as <-. apply get_set_eq.
Qed.

Lemma site_update_none (n : string) (s : list R) (a : element) :
  site_update n s a = None -> is_site n a = None.
Proof.
  unfold site_update, is_site.
  destruct (decide (tag a = "site" /\ get "name" a = Some n)); [discriminate | reflexivity].
Qed.

Lemma site_update_some (n : string) (s : list R) (a a' : element) :
  site_update n s a = Some (Ok a') ->
  exists x x', is_site n a = Some x /\ is_site n a' = Some x' /\ scale_site s x = Ok x'.
Proof.
  unfold site_update, is_site.
  destruct (decide (tag a = "site" /\ get "name" a = Some n)) as [[Ht Hn]|]; [|discriminate].
  intros H. injection H as H. exists a, a'.
  destruct (scale_site_spec s a a' H) as (_ & Ht' & Hn').
  destruct (decide (tag a' = "site" /\ get "name" a' = Some n)) as [_|Hne]; [auto|].
  exfalso. apply Hne. split; congruence.
Qed.

Lemma site_update_other (n n' : string) (s : list R) (a a' : element) :
  n' <> n -> site_update n s a = Some (Ok a') -> is_site n' a' = is_site n' a.
Proof.
  intros Hne. unfold site_update, is_site.
  destruct (decide (tag a = "site" /\ get "name" a = Some n)) as [[Ht Hn]|]; [|discriminate].
  intros H. injection H as H.
  destruct (scale_site_spec s a a' H) as (_ & Ht' & Hn').
  destruct (decide (tag a' = "site" /\ get "name" a' = Some n')) as [[_ Hx]|_].
  - exfalso. congruence.
  - destruct (decide (tag a = "site" /\ get "name" a = Some n')) as [[_ Hx]|_];
      [exfalso; congruence | reflexivity].
Qed.

(** The site that [find] answers for [n] is the one that is scaled. *)
Lemma update_site_same (s : list R) (root root' : element) (n : string) :
  update_site s root n = Ok root' ->
  exists site site',
    find_site n root = Some site /\ find_site n root' = Some site'
    /\ scale_site s site = Ok site'.
Proof.
  unfold update_site, find_site. intros H.
  destruct (update_first _ (children root)) as [[c|x]|] eqn:Hu; try discriminate.
  simpl in H. injection H as <-. simpl.
  eapply (update_first_sel _ (descend "worldbody" (descend "body" (is_site n)))
            (fun x x' => scale_site s x = Ok x')) in Hu; [exact Hu | |].
  - intros a. apply descend_update_none. intros b. apply descend_update_none.
    intros d. apply site_update_none.
  - intros a a'. apply descend_update_sel.
    + intros b. apply descend_update_none. intros d. apply site_update_none.
    + intros b b'. apply descend_update_sel.
      * intros d. apply site_update_none.
      * intros d d'. apply site_update_some.
Qed.

Lemma update_site_other (s : list R) (root root' : element) (n n' : string) :
  n' <> n ->
  update_site s root n = Ok root' -> find_site n' root' = find_site n' root.
Proof.
  intros Hne. unfold update_site, find_site. intros H.
  destruct (update_first _ (children root)) as [[c|x]|] eqn:Hu; try discriminate.
  simpl in H. injection H as <-. simpl.
  eapply update_first_other; [|exact Hu].
  intros a a'. apply descend_update_other.
  intros b b'. apply descend_update_other.
  intros d d'. now apply site_update_other.
Qed.

Lemma update_site_asset (s : list R) (root root' : element) (n : string) :
  update_site s root n = Ok root' -> find "asset" root' = find "asset" root.
Proof.
  unfold update_site, find. intros H.
  destruct (update_first _ (children root)) as [[c|x]|] eqn:Hu; try discriminate.
  simpl in H. injection H as <-. simpl.
  eapply update_first_other; [|exact Hu].
  intros a a'. unfold descend_update, has_tag.
  destruct (decide (tag a = "worldbody")) as [Ht|]; [|discriminate].
  destruct (update_first _ (children a)) as [[c'|x]|]; try discriminate.
  intros H. injection H as <-. simpl. rewrite Ht.
  destruct (decide ("worldbody" = "asset")); [discriminate | reflexivity].
Qed.

Lemma update_sites_spec (s : list R) (names : list string) (root root' : element) :
  NoDup names ->
  update_sites s root names = Ok root' ->
  find "asset" root' = find "asset" root
  /\ (forall n, n ∉ names -> find_site n root' = find_site n root)
  /\ (forall n, n ∈ names ->
        exists site site',
          find_site n root = Some site /\ find_site n root' = Some site'
          /\ scale_site s site = Ok site').
Proof.
  intros Hnd. revert root. induction names as [|n names IH]; intros root H; simpl in H.
  - injection H as <-. split; [reflexivity|]. split; [reflexivity|].
    intros n Hn. now apply not_elem_of_nil in Hn.
  - apply obind_Ok in H as (root1 & H1 & H).
    apply NoDup_cons in Hnd as [Hn Hnd].
    destruct (IH Hnd root1 H) as (Ha & Ho & Hs).
    split; [|split].
    + rewrite Ha. now apply update_site_asset in H1.
    + intros m Hm. apply not_elem_of_cons in Hm as [Hmn Hm].
      rewrite (Ho m Hm). now apply (update_site_other s root root1 n m).
    + intros m Hm. apply elem_of_cons in Hm as [->|Hm].
      * destruct (update_site_same s root root1 n H1) as (site & site' & Hf & Hf' & Hsc).
        exists site, site'. rewrite (Ho n Hn). auto.
      * destruct (Hs m Hm) as (site & site' & Hf & Hf' & Hsc).
        exists site, site'. repeat split; try assumption.
        rewrite <- Hf. symmetry. apply (update_site_other s root root1 n m); [|exact H1].
        intros ->. contradiction.
Qed.

Lemma postprocess_elem_get (key : string) (e : element) :
  key <> "file" ->
  get key (postprocess_elem robosuite_path robosuite_model_zoo_path e) = get key e.
Proof.
  intros Hk. unfold postprocess_elem.
  destruct (get "file" e); [|reflexivity]. cbv zeta.
  destruct (replace_prefix "robosuite" _ _), (replace_prefix "robosuite-model-zoo-dev" _ _);
    rewrite ?get_set_ne by congruence; reflexivity.
Qed.

Lemma postprocess_elem_tag (e : element) :
  tag (postprocess_elem robosuite_path robosuite_model_zoo_path e) = tag e.
Proof.
  unfold postprocess_elem.
  destruct (get "file" e); [|reflexivity]. cbv zeta.
  destruct (replace_prefix "robosuite" _ _), (replace_prefix "robosuite-model-zoo-dev" _ _);
    reflexivity.
Qed.

(** C8: in the XML that the constructor writes, every mesh of the asset
    section has the requested scale as its [scale] attribute when it had
    none, and the product of its former scale and the requested scale
    otherwise; and the [pos] of each of the three sites is the product of
    the requested scale and its former [pos]. *)
Theorem init_scales_meshes_and_sites (scale : scale_arg) (root root' : element) :
  MJCFObject_init mul string_to_array array_to_string robosuite_path
                  robosuite_model_zoo_path scale root = Ok root' ->
  exists s asset asset',
    get_scale scale = Ok s
    /\ find "asset" root = Some asset
    /\ find "asset" root' = Some asset'
    /\ Forall2 (mesh_scaled s) (findall "mesh" asset) (findall "mesh" asset')
    /\ forall n, n ∈ ["bottom_site"; "top_site"; "horizontal_radius_site"] ->
         exists site site',
           find_site n root = Some site /\ find_site n root' = Some site'
           /\ site_scaled s site site'.
Proof.
  unfold MJCFObject_init. intros H.
  apply obind_Ok in H as (s & Hs & H).
  apply obind_Ok in H as (root1 & H1 & H).
  apply obind_Ok in H as (root2 & H2 & H3).
  destruct (update_asset_find _ _ _ H1) as (asset & c1 & Hfa & Hc1 & Hfa1 & _).
  apply update_sites_spec in H2 as (Ha2 & _ & Hsites); [|compute_done].
  unfold postprocess_model_xml in H3.
  destruct (update_asset_find _ _ _ H3) as (asset2 & c3 & Hfa2 & Hc3 & Hfa3 & _).
  rewrite Ha2, Hfa1 in Hfa2. injection Hfa2 as <-. simpl in Hc3, Hfa3.
  injection Hc3 as <-.
  exists s, asset. eexists. split; [exact Hs|]. split; [exact Hfa|].
  split; [exact Hfa3|]. split.
  - unfold findall. simpl. apply omap_Forall2 in Hc1.
    eapply Forall2_impl.
    + apply (Forall2_findall
               (fun x y => tag y = tag x /\ (tag x = "mesh" -> mesh_scaled s x y))).
      * intros x y [Ht _]. exact Ht.
      * apply Forall2_fmap_r. eapply Forall2_impl; [exact Hc1|].
        intros x y Hxy. simpl in Hxy.
        assert (Hpp : forall z, tag z = tag x ->
                  tag (if is_mesh_or_texture z
                       then postprocess_elem robosuite_path robosuite_model_zoo_path z
                       else z) = tag x).
        { intros z Hz. destruct (is_mesh_or_texture z); [|exact Hz].
          now rewrite postprocess_elem_tag. }
        destruct (decide (tag x = "mesh")) as [Hm|Hm].
        -- apply scale_mesh_spec in Hxy as [Hsc Hty]. split; [now apply Hpp|].
           intros _. unfold mesh_scaled in *.
           assert (Hg : get "scale"
                          (if is_mesh_or_texture y
                           then postprocess_elem robosuite_path robosuite_model_zoo_path y
                           else y) = get "scale" y).
           { destruct (is_mesh_or_texture y); [|reflexivity].
             apply postprocess_elem_get. discriminate. }
           rewrite Hg. exact Hsc.
        -- injection Hxy as <-. split; [now apply Hpp|]. contradiction.
    + intros x y [[_ Hxy] Ht]. simpl. now apply Hxy.
  - intros n Hn. destruct (Hsites n Hn) as (site & site' & Hf & Hf' & Hsc).
    exists site, site'. split; [|split].
    + rewrite <- Hf. symmetry. now apply (update_asset_find_site _ _ _ n) in H1.
    + rewrite <- Hf'. now apply (update_asset_find_site _ _ _ n) in H3.
    + now apply scale_site_spec in Hsc as [Hsc _].
Qed.

End MJCFObjectProofs.

Lemma init_scales_meshes_and_sites_witness :
  exists root' asset',
    MJCFObject_init Z.mul sample_string_to_array sample_array_to_string
                    "/opt/py/robosuite" "/opt/zoo/robosuite_model_zoo"
                    (ScaleFloat 2) sample_model = Ok root'
    /\ find "asset" root' = Some asset'
    /\ map (get "scale") (findall "mesh" asset') = [Some "2 2 2"; Some "2 4 6"]
    /\ forall n, n ∈ ["bottom_site"; "top_site"; "horizontal_radius_site"] ->
         exists site site',
           find_site n sample_model = Some site /\ find_site n root' = Some site'
           /\ site_scaled Z.mul sample_string_to_array sample_array_to_string
                          [2; 2; 2] site site'.
Proof.
  destruct (MJCFObject_init Z.mul sample_string_to_array sample_array_to_string
              "/opt/py/robosuite" "/opt/zoo/robosuite_model_zoo"
              (ScaleFloat 2) sample_model) as [root'|e] eqn:H.
  - destruct (init_scales_meshes_and_sites _ _ _ _ _ _ _ _ H)
      as (s & asset & asset' & Hs & _ & Ha' & _ & Hsites).
    injection Hs as <-. exists root', asset'.
    split; [reflexivity|]. split; [exact Ha'|]. split; [|exact Hsites].
    vm_compute in H. injection H as <-. vm_compute in Ha'. injection Ha' as <-.
    reflexivity.
  - vm_compute in H. discriminate H.
Defined.

(** * Further properties *)

(** ** The dispatcher *)

Lemma retrieve_new_index_keeps (p : nat) (s : Shared) :
  let s' := snd (retrieve_new_index p s) in
  length (current_work_array s') = length (current_work_array s)
  /\ (forall q, q <> p -> current_work_array s' !! q = current_work_array s !! q)
  /\ (work_queue s' = work_queue s \/ work_queue s' = tail (work_queue s)).
Proof.
  unfold retrieve_new_index. destruct (work_queue s) as [|i rest] eqn:Hq; simpl.
  - rewrite Hq. auto.
  - destruct (decide (p < length (current_work_array s))%nat); simpl.
    + split; [apply length_insert|]. split; [|now right].
      intros q Hne. now apply list_lookup_insert_ne.
    + auto.
Qed.

(** X1: a claim leaves the number of slots and the slots of the other workers as
    they are, and the queue after it is the queue before it or its tail. *)
Theorem retrieve_new_index_frame (p : nat) (s : Shared) :
  let s' := snd (retrieve_new_index p s) in
  length (current_work_array s') = length (current_work_array s)
  /\ (forall q, q <> p -> current_work_array s' !! q = current_work_array s !! q)
  /\ (work_queue s' = work_queue s \/ work_queue s' = tail (work_queue s)).
Proof. exact (retrieve_new_index_keeps p s). Qed.

(** X2: claims by workers that have a slot hand out the indices of the queue in
    order, each one once: the first [k] callers receive the first [k] indices,
    the others receive [-1], and the queue keeps the rest. *)
Theorem claims_hand_out_each_index_once (callers : list nat) (s : Shared) :
  Forall (fun c => (c < length (current_work_array s))%nat) callers ->
  let k := Nat.min (length callers) (length (work_queue s)) in
  fst (claims callers s)
  = map Ok (take k (work_queue s)) ++ replicate (length callers - k) (Ok (-1))
  /\ work_queue (snd (claims callers s)) = drop k (work_queue s)
  /\ length (current_work_array (snd (claims callers s)))
     = length (current_work_array s).
Proof.
  revert s. induction callers as [|c callers IH]; intros [q a] Hv; simpl in *.
  - rewrite ?take_0, ?drop_0. auto.
  - apply Forall_cons_1 in Hv as [Hc Hv].
    destruct q as [|i q].
    + rewrite (retrieve_new_index_empty c (mkShared [] a) eq_refl).
      specialize (IH (mkShared [] a) Hv). simpl in IH.
      destruct (claims callers (mkShared [] a)) as [rs s2]. simpl in *.
      destruct IH as (Hr & Hq & Hl).
      rewrite Nat.min_0_r, Nat.sub_0_r in Hr. simpl in Hr.
      rewrite Hr, Hq, Hl, drop_nil. auto.
    + rewrite (retrieve_new_index_pop c (mkShared (i :: q) a) i q eq_refl Hc). simpl.
      assert (Hv' : Forall (fun c0 => (c0 < length (<[c := wrap32 i]> a))%nat) callers).
      { eapply Forall_impl; [exact Hv|]. intros x Hx. simpl in *.
        now rewrite length_insert. }
      specialize (IH (mkShared q (<[c := wrap32 i]> a)) Hv'). simpl in IH.
      destruct (claims callers (mkShared q (<[c := wrap32 i]> a))) as [rs s2].
      simpl in *. destruct IH as (Hr & Hq & Hl).
      rewrite Hr, Hq, Hl, length_insert. auto.
Qed.

Lemma claims_hand_out_each_index_once_witness :
  fst (claims [0; 0; 0; 0; 0]%nat (mkShared [4; 7] [0]))
  = [Ok 4; Ok 7; Ok (-1); Ok (-1); Ok (-1)]
  /\ work_queue (snd (claims [0; 0; 0; 0; 0]%nat (mkShared [4; 7] [0]))) = [].
Proof.
  destruct (claims_hand_out_each_index_once [0; 0; 0; 0; 0]%nat (mkShared [4; 7] [0]))
    as (H1 & H2 & _).
  - simpl. repeat constructor.
  - split; [exact H1 | exact H2].
Defined.

(** ** The extraction of one trajectory *)

Lemma py_getitem_nat {A : Type} (l : list A) (t : nat) :
  py_getitem l (Z.of_nat t)
  = match l !! t with Some a => Ok a | None => Raise IndexError end.
Proof.
  unfold py_getitem.
  destruct (Z.ltb_spec (Z.of_nat t) 0); [lia|].
  destruct (Z.ltb_spec (Z.of_nat t) 0); [lia|].
  now rewrite Nat2Z.id.
Qed.

Lemma omap_ext_in {A B : Type} (f g : A -> outcome B) (l : list A) :
  (forall a, a ∈ l -> f a = g a) -> omap f l = omap g l.
Proof.
  induction l as [|a l IH]; intros H; simpl; [reflexivity|].
  rewrite (H a) by left. rewrite IH; [reflexivity|].
  intros b Hb. apply H. now right.
Qed.

Section ExtractorFurther.

Context {State Action Reward Sensor Info : Type} `{!Indexable State}.

Lemma extract_step_inv (env : @Env State Action Reward Sensor Info) sts acts
    done_mode args adi t o r d info :
  extract_step env sts acts done_mode args adi t = Ok (o, r, d, info) ->
  exists st o1,
    sts !! t = Some st
    /\ env_reset_to env (mkStateDict st None None) = Ok o1
    /\ dict_del_all (obs_keys_to_remove args o1) o1 = Ok o
    /\ r = env_reward env st
    /\ d = done_signal done_mode t (env_check_success env st).
Proof.
  unfold extract_step. intros H.
  apply obind_Ok in H as (st & Hst & H).
  apply obind_Ok in H as (o1 & Ho1 & H).
  apply obind_Ok in H as (o2 & Ho2 & H).
  apply obind_Ok in H as (i & _ & H).
  injection H as <- <- <- _. exists st, o1.
  rewrite py_getitem_nat in Hst. destruct (sts !! t); [|discriminate].
  injection Hst as ->. auto.
Qed.

Lemma done_signal_below (done_mode : Z) (t : nat) (success : bool) :
  (t < traj_len)%nat ->
  done_signal done_mode t success
  = if ((done_mode =? 0) || (done_mode =? 2)) && success then 1 else 0.
Proof.
  intros Ht. unfold done_signal.
  destruct (Nat.eqb_spec t traj_len) as [->|_]; [lia|].
  destruct (done_mode =? 1), (done_mode =? 2), (done_mode =? 0), success; reflexivity.
Qed.

(** X4: with [done_mode = 2] the extraction gives what it gives with
    [done_mode = 0]: the end of the trajectory adds no done. *)
Theorem done_mode_2_same_as_0 (env : @Env State Action Reward Sensor Info)
    ist sts acts args adi :
  extract_trajectory env ist sts acts 2 args adi
  = extract_trajectory env ist sts acts 0 args adi.
Proof.
  unfold extract_trajectory.
  destruct (negb _); [reflexivity|].
  destruct (env_reset env); [|reflexivity]. cbn [obind].
  destruct (env_reset_to env ist); [|reflexivity]. cbn [obind].
  rewrite (omap_ext_in (extract_step env sts acts 2 args adi)
                       (extract_step env sts acts 0 args adi)); [reflexivity|].
  intros t Ht. apply elem_of_seq in Ht. unfold extract_step.
  destruct (py_getitem sts (Z.of_nat t)) as [st|]; [|reflexivity]. cbn [obind].
  destruct (env_reset_to env _) as [o|]; [|reflexivity]. cbn [obind].
  destruct (dict_del_all _ o) as [o'|]; [|reflexivity]. cbn [obind].
  destruct (if adi then _ else _) as [i|]; [|reflexivity]. cbn [obind].
  rewrite !done_signal_below by lia. reflexivity.
Qed.

Lemma steps_of_states (env : @Env State Action Reward Sensor Info) sts acts
    done_mode args adi (n a : nat) steps :
  (a + n <= traj_len)%nat ->
  omap (extract_step env sts acts done_mode args adi) (seq a n) = Ok steps ->
  map (fun s => snd (fst (fst s))) steps = map (env_reward env) (take n (drop a sts))
  /\ map (fun s => snd (fst s)) steps
     = map (fun st => if ((done_mode =? 0) || (done_mode =? 2)) && env_check_success env st
                      then 1 else 0)
           (take n (drop a sts)).
Proof.
  revert a steps. induction n as [|n IH]; intros a steps Hle H; simpl in H.
  - injection H as <-. split; reflexivity.
  - apply obind_Ok in H as ([[[o r] d] info] & Hstep & H).
    apply obind_Ok in H as (rest & Hrest & H). injection H as <-.
    apply extract_step_inv in Hstep as (st & o1 & Hst & _ & _ & -> & ->).
    destruct (IH (S a) rest) as [Hr Hd]; [lia | exact Hrest |].
    rewrite (drop_S _ _ _ Hst). simpl. rewrite Hr, Hd.
    rewrite done_signal_below by lia. split; reflexivity.
Qed.

(** X5: the rewards and dones of a trajectory are those of the first [traj_len]
    recorded states: the reward of each state, and a done of 1 where the
    state is a success and [done_mode] is 0 or 2. *)
Theorem rewards_and_dones_of_states (env : @Env State Action Reward Sensor Info)
    ist sts acts done_mode args adi traj :
  extract_trajectory env ist sts acts done_mode args adi = Ok traj ->
  rewards traj = map (env_reward env) (take traj_len sts)
  /\ dones traj
     = map (fun st => if ((done_mode =? 0) || (done_mode =? 2)) && env_check_success env st
                      then 1 else 0)
           (take traj_len sts).
Proof.
  intros H. apply extract_trajectory_steps in H as (steps & Hsteps & Hr & Hd & _).
  rewrite Hr, Hd. apply (steps_of_states env sts acts done_mode args adi traj_len 0).
  - lia.
  - exact Hsteps.
Qed.

Lemma convert_text_inv (v a : text) :
  convert_text v = Ok a -> exists s, v = Str s /\ s <> "" /\ a = UArray s.
Proof.
  destruct v as [[|c s]|s]; simpl; intros H; try discriminate.
  injection H as <-. exists (String c s). repeat split. discriminate.
Qed.

Lemma extract_trajectory_initial_state (env : @Env State Action Reward Sensor Info)
    ist sts acts done_mode args adi traj :
  extract_trajectory env ist sts acts done_mode args adi = Ok traj ->
  convert_initial_state
    (mkStateDict (sd_states ist) (sd_model ist) (Some (Str (env_get_ep_meta env))))
  = Ok (initial_state_dict traj).
Proof.
  unfold extract_trajectory. intros H.
  destruct (negb _); [discriminate|].
  apply obind_Ok in H as (? & _ & H).
  apply obind_Ok in H as (? & _ & H).
  apply obind_Ok in H as (steps & _ & H).
  apply obind_Ok in H as (o & _ & H).
  apply obind_Ok in H as (isd & Hisd & H).
  injection H as <-. exact Hisd.
Qed.

(** X15: a trajectory that [extract_trajectory] returns holds its model and
    its episode metadata as arrays of dtype [<U], made of the model string
    that came in and of the metadata of the environment; this needs the
    initial state to have a first entry and both strings to be non-empty,
    and a model that is still a Python [str]. *)
Theorem extraction_turns_strings_into_arrays (env : @Env State Action Reward Sensor Info)
    ist sts acts done_mode args adi traj :
  extract_trajectory env ist sts acts done_mode args adi = Ok traj ->
  has_first (sd_states ist) = true
  /\ sd_states (initial_state_dict traj) = sd_states ist
  /\ env_get_ep_meta env <> ""
  /\ sd_ep_meta (initial_state_dict traj) = Some (UArray (env_get_ep_meta env))
  /\ match sd_model ist with
     | None => sd_model (initial_state_dict traj) = None
     | Some (Str s) => s <> "" /\ sd_model (initial_state_dict traj) = Some (UArray s)
     | Some (UArray _) => False
     end.
Proof.
  intros H. apply extract_trajectory_initial_state in H.
  unfold convert_initial_state in H. cbn [sd_states sd_model sd_ep_meta] in H.
  destruct (has_first (sd_states ist)); [|discriminate]. cbn [negb] in H.
  apply obind_Ok in H as (model & Hmodel & H).
  apply obind_Ok in H as (meta & Hmeta & H).
  injection H as <-. cbn [sd_states sd_model sd_ep_meta].
  unfold convert_entry in Hmeta.
  apply obind_Ok in Hmeta as (a & Ha & Hmeta). injection Hmeta as <-.
  apply convert_text_inv in Ha as (s & Hs & Hne & ->). injection Hs as <-.
  repeat split; try assumption.
  unfold convert_entry in Hmodel. destruct (sd_model ist) as [v|].
  - apply obind_Ok in Hmodel as (b & Hb & Hmodel). injection Hmodel as <-.
    apply convert_text_inv in Hb as (s & -> & Hs & ->). split; [exact Hs | reflexivity].
  - now injection Hmodel as <-.
Qed.

End ExtractorFurther.

Lemma extraction_turns_strings_into_arrays_witness :
  exists traj,
    extract_trajectory sample_env (mkStateDict 0%nat (Some (Str "<mujoco/>")) None)
                       (seq 0 20) (seq 0 20) 0 sample_args false = Ok traj
    /\ initial_state_dict traj
       = mkStateDict 0%nat (Some (UArray "<mujoco/>")) (Some (UArray "{}")).
Proof.
  destruct (extract_trajectory sample_env (mkStateDict 0%nat (Some (Str "<mujoco/>")) None)
                               (seq 0 20) (seq 0 20) 0 sample_args false)
    as [traj|e] eqn:H.
  - exists traj. split; [reflexivity|].
    destruct (extraction_turns_strings_into_arrays _ _ _ _ _ _ _ _ H)
      as (_ & Hs & _ & Hmeta & _ & Hmodel).
    destruct (initial_state_dict traj) as [st model meta]. simpl in *.
    now rewrite Hs, Hmeta, Hmodel.
  - vm_compute in H. discriminate H.
Defined.

Lemma rewards_and_dones_of_states_witness :
  exists traj,
    extract_trajectory sample_env (mkStateDict 0%nat (Some (Str "<mujoco/>")) None)
                       (seq 0 25) (seq 0 25) 0 sample_args false = Ok traj
    /\ rewards traj = replicate 20 0
    /\ dones traj = replicate 7 0 ++ [1] ++ replicate 12 0.
Proof.
  destruct (extract_trajectory sample_env (mkStateDict 0%nat (Some (Str "<mujoco/>")) None)
                               (seq 0 25) (seq 0 25) 0 sample_args false)
    as [traj|e] eqn:H.
  - exists traj. split; [reflexivity|].
    destruct (rewards_and_dones_of_states _ _ _ _ _ _ _ _ H) as [Hr Hd].
    rewrite Hr, Hd. split; reflexivity.
  - vm_compute in H. discriminate H.
Defined.

Section TrajectoryCounts.

Context {State Action Reward Sensor Info : Type} `{!Indexable State}.

(** X3: a trajectory that [extract_trajectory] returns has [traj_len] rewards
    and [traj_len] dones, and the recorded actions and states as they came;
    there are at least [traj_len] recorded states. *)
Theorem trajectory_entry_counts (env : @Env State Action Reward Sensor Info)
    ist sts acts done_mode args adi traj :
  extract_trajectory env ist sts acts done_mode args adi = Ok traj ->
  length (rewards traj) = traj_len /\ length (dones traj) = traj_len
  /\ actions traj = acts /\ states traj = sts
  /\ (traj_len <= length sts)%nat.
Proof. apply extract_trajectory_counts. Qed.

End TrajectoryCounts.

Lemma trajectory_entry_counts_witness :
  exists traj,
    extract_trajectory sample_env (mkStateDict 0%nat (Some (Str "<mujoco/>")) None)
                       (seq 0 25) (seq 0 25) 0 sample_args false = Ok traj
    /\ length (rewards traj) = 20%nat /\ length (dones traj) = 20%nat
    /\ length (actions traj) = 25%nat /\ length (states traj) = 25%nat.
Proof.
  destruct (extract_trajectory sample_env (mkStateDict 0%nat (Some (Str "<mujoco/>")) None)
                               (seq 0 25) (seq 0 25) 0 sample_args false)
    as [traj|e] eqn:H.
  - exists traj. split; [reflexivity|].
    destruct (trajectory_entry_counts _ _ _ _ _ _ _ _ H) as (Hr & Hd & Ha & Hs & _).
    rewrite Hr, Hd, Ha, Hs. repeat split; reflexivity.
  - vm_compute in H. discriminate H.
Defined.

(** ** The removal of observation keys *)

Lemma filter_all {A : Type} (P : A -> Prop) `{!forall x, Decision (P x)} (l : list A) :
  Forall P l -> filter P l = l.
Proof.
  induction 1 as [|x l Hx _ IH]; [reflexivity|].
  now rewrite filter_cons_True, IH.
Qed.

Lemma filter_ext_elem {A : Type} (P Q : A -> Prop)
    `{!forall x, Decision (P x), !forall x, Decision (Q x)} (l : list A) :
  Forall (fun x => P x <-> Q x) l -> filter P l = filter Q l.
Proof.
  induction 1 as [|x l Hx _ IH]; [reflexivity|].
  rewrite !filter_cons, IH.
  destruct (decide (P x)), (decide (Q x)); tauto.
Qed.

Lemma dict_del_spec {V : Type} (k : string) (d d' : list (string * V)) :
  dict_del k d = Ok d' ->
  NoDup (map fst d) ->
  k ∈ map fst d
  /\ d' = filter (fun kv => fst kv <> k) d
  /\ NoDup (map fst d').
Proof.
  revert d'. induction d as [|[k' v] d IH]; intros d' H Hnd; simpl in H; [discriminate|].
  apply NoDup_cons in Hnd as [Hk' Hnd]. simpl in Hk'.
  destruct (decide (k = k')) as [->|Hne].
  - injection H as <-. split; [left|]. split; [|exact Hnd].
    rewrite filter_cons. simpl. destruct (decide (k' <> k')); [contradiction|].
    symmetry. apply filter_all. apply Forall_forall. intros [k2 v2] Hin. simpl.
    intros ->. apply Hk'. apply list_elem_of_fmap. now exists (k', v2).
  - apply obind_Ok in H as (r & Hr & H). injection H as <-.
    destruct (IH r Hr Hnd) as (Hin & -> & Hnd').
    split; [now right|]. split.
    + rewrite filter_cons. simpl.
      destruct (decide (k' <> k)) as [_|Hn]; [reflexivity|].
      exfalso. apply Hn. congruence.
    + simpl. apply NoDup_cons. split; [|exact Hnd'].
      intros Hc. apply Hk'. apply list_elem_of_fmap in Hc as ([k2 v2] & -> & Hc).
      apply list_elem_of_filter in Hc as [_ Hc]. apply list_elem_of_fmap. now exists (k2, v2).
Qed.

Lemma dict_del_all_spec {V : Type} (ks : list string) (d d' : list (string * V)) :
  dict_del_all ks d = Ok d' ->
  NoDup (map fst d) ->
  NoDup ks
  /\ d' = filter (fun kv => fst kv ∉ ks) d.
Proof.
  revert d d'. induction ks as [|k ks IH]; intros d d' H Hnd; simpl in H.
  - injection H as <-. split; [constructor|].
    symmetry. apply filter_all. apply Forall_forall. intros kv _. apply not_elem_of_nil.
  - apply obind_Ok in H as (d1 & H1 & H).
    destruct (dict_del_spec k d d1 H1 Hnd) as (Hin & -> & Hnd1).
    destruct (IH _ d' H Hnd1) as (Hks & ->). split.
    + apply NoDup_cons. split; [|exact Hks]. intros Hk.
      (* every key of [ks] is a key of the dictionary left without [k] *)
      assert (Hall : forall (l : list string) (e e' : list (string * V)),
                 dict_del_all l e = Ok e' -> NoDup (map fst e) ->
                 forall x, x ∈ l -> x ∈ map fst e).
      { clear. induction l as [|y l IHl]; intros e e' He Hn x Hx; simpl in He.
        - now apply not_elem_of_nil in Hx.
        - apply obind_Ok in He as (e1 & He1 & He).
          destruct (dict_del_spec y e e1 He1 Hn) as (Hy & -> & Hn1).
          apply elem_of_cons in Hx as [->|Hx]; [exact Hy|].
          specialize (IHl _ _ He Hn1 x Hx).
          apply list_elem_of_fmap in IHl as (kv & -> & Hkv).
          apply list_elem_of_filter in Hkv as [_ Hkv].
          apply list_elem_of_fmap. now exists kv. }
      specialize (Hall ks _ _ H Hnd1 k Hk).
      apply list_elem_of_fmap in Hall as ([k2 v2] & Heq & Hkv). simpl in Heq. subst k2.
      apply list_elem_of_filter in Hkv as [Hne _]. now apply Hne.
    + rewrite list_filter_filter. apply list_filter_iff. intros [k2 v2]. simpl.
      rewrite not_elem_of_cons. tauto.
Qed.

Lemma dict_del_all_error {V : Type} (ks : list string) (d : list (string * V)) (e : exn) :
  dict_del_all ks d = Raise e -> e = KeyError.
Proof.
  assert (Hd : forall k (d0 : list (string * V)) e0, dict_del k d0 = Raise e0 -> e0 = KeyError).
  { intros k d0. induction d0 as [|[k' v] d0 IH]; intros e0 H; simpl in H.
    - now injection H as <-.
    - destruct (decide (k = k')); [discriminate|].
      destruct (dict_del k d0) as [r|e1]; simpl in H; [discriminate|].
      injection H as <-. now apply IH. }
  revert d. induction ks as [|k ks IH]; intros d H; simpl in H; [discriminate|].
  destruct (dict_del k d) as [d1|e1] eqn:H1; simpl in H.
  - now apply (IH d1).
  - injection H as <-. now apply (Hd k d).
Qed.

Section KeyRemoval.

Context {State Action Reward Sensor Info : Type} `{!Indexable State}.

Lemma obs_keys_to_remove_elem (args : Args) (o : list (string * @obs_value Sensor)) k :
  k ∈ obs_keys_to_remove args o <-> k ∈ map fst o /\ removed args k = true.
Proof.
  unfold obs_keys_to_remove, removed. rewrite list_elem_of_In, in_flat_map. split.
  - intros ([k' v] & Hin & Hk). simpl in Hk. apply in_app_or in Hk.
    apply list_elem_of_In in Hin.
    assert (Hf : k' ∈ map fst o) by (apply list_elem_of_fmap; now exists (k', v)).
    destruct Hk as [Hk|Hk].
    + destruct (arg_dont_store_image args && str_contains "image" k') eqn:E;
        [|destruct Hk].
      destruct Hk as [<-|[]]. now rewrite E.
    + destruct (arg_dont_store_depth args && str_contains "depth" k') eqn:E;
        [|destruct Hk].
      destruct Hk as [<-|[]]. rewrite E. split; [exact Hf | apply orb_true_r].
  - intros [Hin Hr]. apply list_elem_of_fmap in Hin as ([k' v] & -> & Hin). simpl in *.
    exists (k', v). split; [now apply list_elem_of_In|]. simpl. apply in_or_app.
    apply orb_true_iff in Hr as [Hr|Hr]; rewrite Hr; [left | right]; now left.
Qed.

(** X6: when the observation of a step has distinct keys and the step succeeds,
    the observation kept is the one of the environment without the keys
    that hold [image] (with [dont_store_image]) or [depth] (with
    [dont_store_depth]); the other entries stay, in their order. *)
Theorem extract_step_removes_keys (env : @Env State Action Reward Sensor Info)
    sts acts done_mode args adi t st o1 o r d info :
  sts !! t = Some st ->
  env_reset_to env (mkStateDict st None None) = Ok o1 ->
  NoDup (map fst o1) ->
  extract_step env sts acts done_mode args adi t = Ok (o, r, d, info) ->
  o = filter (fun kv => removed args (fst kv) = false) o1
  /\ forall k, k ∈ map fst o ->
       (arg_dont_store_image args = true -> str_contains "image" k = false)
       /\ (arg_dont_store_depth args = true -> str_contains "depth" k = false).
Proof.
  intros Hst Ho1 Hnd H.
  apply extract_step_inv in H as (st' & o1' & Hst' & Ho1' & Hdel & _).
  rewrite Hst in Hst'. injection Hst' as <-. rewrite Ho1 in Ho1'. injection Ho1' as <-.
  apply dict_del_all_spec in Hdel as [_ ->]; [|exact Hnd].
  assert (Heq : filter (fun kv => fst kv ∉ obs_keys_to_remove args o1) o1
                = filter (fun kv => removed args (fst kv) = false) o1).
  { apply filter_ext_elem. apply Forall_forall. intros [k v] Hin. simpl.
    rewrite obs_keys_to_remove_elem. split.
    - intros Hn. destruct (removed args k) eqn:E; [|reflexivity].
      exfalso. apply Hn. split; [|reflexivity].
      apply list_elem_of_fmap. now exists (k, v).
    - intros E [_ Hr]. congruence. }
  split; [exact Heq|]. rewrite Heq. intros k Hk.
  apply list_elem_of_fmap in Hk as ([k' v] & -> & Hk). simpl.
  apply list_elem_of_filter in Hk as [Hk _]. simpl in Hk. unfold removed in Hk.
  apply orb_false_iff in Hk as [Hi Hd].
  split; intros Hflag; rewrite Hflag in *; simpl in *; assumption.
Qed.

(** X7: with both [dont_store_image] and [dont_store_depth], a key that holds
    both [image] and [depth] is collected twice, and the second [del] of it
    raises [KeyError]: the step fails. *)
Theorem key_with_image_and_depth_raises (env : @Env State Action Reward Sensor Info)
    sts acts done_mode args adi t st o1 k :
  sts !! t = Some st ->
  env_reset_to env (mkStateDict st None None) = Ok o1 ->
  NoDup (map fst o1) ->
  arg_dont_store_image args = true ->
  arg_dont_store_depth args = true ->
  k ∈ map fst o1 ->
  str_contains "image" k = true ->
  str_contains "depth" k = true ->
  extract_step env sts acts done_mode args adi t = Raise KeyError.
Proof.
  intros Hst Ho1 Hnd Hi Hd Hk Hki Hkd.
  unfold extract_step. rewrite py_getitem_nat, Hst. cbn [obind]. rewrite Ho1. cbn [obind].
  destruct (dict_del_all (obs_keys_to_remove args o1) o1) as [o|e] eqn:Hdel.
  - exfalso. apply dict_del_all_spec in Hdel as [Hks _]; [|exact Hnd].
    clear -Hks Hi Hd Hk Hki Hkd. unfold obs_keys_to_remove in Hks.
    induction o1 as [|[k' v] o1 IH]; simpl in *.
    + now apply not_elem_of_nil in Hk.
    + rewrite Hi, Hd in Hks. simpl in Hks.
      apply elem_of_cons in Hk as [<-|Hk].
      * rewrite Hki, Hkd in Hks. simpl in Hks.
        apply NoDup_cons in Hks as [Hn _]. apply Hn. left.
      * apply IH; [exact Hk|]. rewrite Hi, Hd. simpl.
        apply NoDup_app in Hks as (_ & _ & Hks). exact Hks.
  - apply dict_del_all_error in Hdel as ->. reflexivity.
Qed.

End KeyRemoval.

(** ** The worker loop *)

Section WorkerFurther.

Context {State Action Reward Sensor Info : Type} `{!Indexable State}.
Variable create_env : nat -> outcome (@Env State Action Reward Sensor Info).

Lemma worker_keeps_refl p (w : @World State Action Reward Sensor Info) :
  worker_keeps p w w.
Proof.
  repeat split; auto. exists []. split; [now rewrite app_nil_r | constructor].
Qed.

Lemma worker_keeps_trans p (w1 w2 w3 : @World State Action Reward Sensor Info) :
  worker_keeps p w1 w2 -> worker_keeps p w2 w3 -> worker_keeps p w1 w3.
Proof.
  intros (Hl & Ho & (r1 & Hq1 & Hp1) & He) (Hl' & Ho' & (r2 & Hq2 & Hp2) & He').
  split; [congruence|]. split; [|split].
  - intros q Hq. rewrite Ho', Ho; auto.
  - exists (r1 ++ r2). rewrite Hq2, Hq1, app_assoc. split; [reflexivity|].
    apply Forall_app. auto.
  - lia.
Qed.

Lemma try_block_keeps ds demos env args p ind
    (w : @World State Action Reward Sensor Info) r w' :
  try_block ds demos env args p ind w = (r, w') -> worker_keeps p w w'.
Proof.
  unfold try_block. destruct (replay_episode ds demos env args ind) as [[ep traj]|e].
  - destruct (retrieve_new_index p (shared w)) as [r' s] eqn:Hr.
    intros H. injection H as _ <-.
    destruct (retrieve_new_index_keeps p (shared w)) as (Hl & Ho & _).
    rewrite Hr in Hl, Ho. simpl in Hl, Ho.
    split; [exact Hl|]. split; [exact Ho|]. split; [|simpl; lia].
    exists [(ep, traj, p)]. simpl. split; [reflexivity|]. repeat constructor.
  - intros H. injection H as _ <-. apply worker_keeps_refl.
Qed.

Lemma loop_body_keeps ds demos args p env ind w :
  match loop_body create_env ds demos args p env ind w with
  | Continue _ _ w' => worker_keeps p w w'
  | Escaped _ w' => worker_keeps p w w'
  end.
Proof.
  unfold loop_body.
  destruct (try_block ds demos env args p ind w) as [[ind'|e] w'] eqn:Ht;
    apply try_block_keeps in Ht.
  - exact Ht.
  - destruct (create_env (envs_created w')) as [env'|e']; [|exact Ht].
    eapply worker_keeps_trans; [exact Ht|].
    repeat split; simpl; auto. exists []. split; [now rewrite app_nil_r | constructor].
Qed.

Lemma worker_loop_keeps fuel ds demos args p env ind w :
  match worker_loop create_env fuel ds demos args p env ind w with
  | Returns _ w' => worker_keeps p w w'
  | Raises _ w' => worker_keeps p w w'
  | OutOfFuel => True
  end.
Proof.
  revert env ind w. induction fuel as [|fuel IH]; intros env ind w; simpl; [exact I|].
  destruct (negb _ && negb _); [|apply worker_keeps_refl].
  pose proof (loop_body_keeps ds demos args p env ind w) as Hb.
  destruct (loop_body create_env ds demos args p env ind w) as [env' ind' w'|e w'];
    [|exact Hb].
  specialize (IH env' ind' w').
  destruct (worker_loop create_env fuel ds demos args p env' ind' w');
    try exact I; now apply (worker_keeps_trans p w w').
Qed.

Lemma with_error_keeps fuel ds args p w :
  match extract_multiple_trajectories_with_error create_env fuel ds args p w with
  | Returns _ w' => worker_keeps p w w'
  | Raises _ w' => worker_keeps p w w'
  | OutOfFuel => True
  end.
Proof.
  unfold extract_multiple_trajectories_with_error.
  destruct (create_env (envs_created w)) as [env|e]; [|apply worker_keeps_refl].
  simpl. destruct (retrieve_new_index p (shared w)) as [[ind|e] s] eqn:Hr;
    destruct (retrieve_new_index_keeps p (shared w)) as (Hl & Ho & _);
    rewrite Hr in Hl, Ho; simpl in Hl, Ho.
  - assert (H0 : worker_keeps p w (mkWorld s (mul_queue w) (S (envs_created w)))).
    { repeat split; simpl; auto. exists []. split; [now rewrite app_nil_r | constructor]. }
    pose proof (worker_loop_keeps fuel ds (select_demos args ds) args p env ind
                  (mkWorld s (mul_queue w) (S (envs_created w)))) as Hk.
    destruct (worker_loop create_env fuel ds (select_demos args ds) args p env ind _);
      try exact I; now apply (worker_keeps_trans p w _ _ H0).
  - repeat split; simpl; auto. exists []. split; [now rewrite app_nil_r | constructor].
Qed.

(** X8: a run of [extract_multiple_trajectories] that returns has kept the
    records that were in the output queue and added only records tagged with
    its own process number; it has changed no slot but its own. *)
Theorem worker_only_appends_own_records fuel ds args p w w' :
  extract_multiple_trajectories create_env fuel ds args p w = Returns tt w' ->
  worker_keeps p w w'.
Proof.
  unfold extract_multiple_trajectories.
  pose proof (with_error_keeps fuel ds args p w) as Hk.
  destruct (extract_multiple_trajectories_with_error create_env fuel ds args p w)
    as [[] w1|e w1|]; [| |discriminate].
  - intros H. now injection H as <-.
  - destruct (current_work_array (shared w1) !! p) as [i|]; [|discriminate].
    intros H. injection H as <-. exact Hk.
Qed.

(** X9: a worker that has a slot never lets an exception out of
    [extract_multiple_trajectories]. *)
Theorem wrapper_never_raises fuel ds args p w :
  (p < length (current_work_array (shared w)))%nat ->
  forall e w', extract_multiple_trajectories create_env fuel ds args p w <> Raises e w'.
Proof.
  intros Hp e w'. unfold extract_multiple_trajectories.
  pose proof (with_error_keeps fuel ds args p w) as Hk.
  destruct (extract_multiple_trajectories_with_error create_env fuel ds args p w)
    as [[] w1|e1 w1|]; try discriminate.
  destruct Hk as (Hl & _).
  destruct (lookup_lt_is_Some_2 (current_work_array (shared w1)) p) as [i Hi]; [lia|].
  rewrite Hi. discriminate.
Qed.

End WorkerFurther.

Section WorkerRuns.

Context {State Action Reward Sensor Info : Type} `{!Indexable State}.
Variable create_env : nat -> outcome (@Env State Action Reward Sensor Info).

Lemma worker_loop_all_but_last ds demos args p env (rest : list Z) :
  forall (ind : Z) (front : list Z) (l : Z) (recs : list (string * Traj))
         (w : @World State Action Reward Sensor Info) (fuel : nat),
    ind :: rest = front ++ [l] ->
    work_queue (shared w) = rest ->
    (p < length (current_work_array (shared w)))%nat ->
    Forall (fun i => i <> -1) front ->
    Forall2 (fun i r => replay_episode ds demos env args i = Ok r) front recs ->
    (length rest < fuel)%nat ->
    exists a,
      worker_loop create_env fuel ds demos args p env ind w
      = Returns tt (mkWorld (mkShared [] a)
                            (mul_queue w ++ map (fun r => (fst r, snd r, p)) recs)
                            (envs_created w))
      /\ a = match rest with
             | [] => current_work_array (shared w)
             | _ => <[p := wrap32 l]> (current_work_array (shared w))
             end.
Proof.
  induction rest as [|j rest IH]; intros ind front l recs w fuel Hq Hw Hp Hn Hr Hf.
  - destruct front as [|x front]; [|destruct front; discriminate].
    apply Forall2_nil_inv_l in Hr as ->.
    destruct fuel as [|fuel]; [lia|]. exists (current_work_array (shared w)).
    split; [|reflexivity]. simpl. rewrite Hw. simpl. rewrite app_nil_r.
    destruct w as [[q a] mq k]. simpl in *. now subst.
  - destruct front as [|x front]; [destruct rest; discriminate|].
    injection Hq as <- Hq.
    apply Forall2_cons_inv_l in Hr as ([ep traj] & recs' & Hrep & Hr & ->).
    apply Forall_cons_1 in Hn as [Hind Hn].
    destruct fuel as [|fuel]; [simpl in Hf; lia|].
    cbn [worker_loop]. rewrite Hw.
    rewrite bool_decide_eq_false_2 by discriminate.
    destruct (Z.eqb_spec ind (-1)) as [?|_]; [contradiction|]. cbn [negb andb].
    unfold loop_body, try_block. rewrite Hrep.
    rewrite (retrieve_new_index_pop p (shared w) j rest Hw Hp).
    destruct (IH j front l recs'
                (mkWorld (mkShared rest (<[p := wrap32 j]> (current_work_array (shared w))))
                         (mul_queue w ++ [(ep, traj, p)]) (envs_created w)) fuel)
      as (a & Hrun & Ha); simpl; try assumption.
    + reflexivity.
    + now rewrite length_insert.
    + simpl in Hf. lia.
    + rewrite Hrun. simpl. rewrite <- app_assoc. simpl.
      eexists. split; [reflexivity|]. rewrite Ha.
      destruct rest as [|j' rest'].
      * destruct front; [|destruct front; discriminate]. simpl in Hq.
        now injection Hq as ->.
      * simpl. now rewrite list_insert_insert_eq.
Qed.

Lemma worker_run_all_but_last fuel ds args p env front l recs
    (w : @World State Action Reward Sensor Info) :
  create_env (envs_created w) = Ok env ->
  work_queue (shared w) = front ++ [l] ->
  (p < length (current_work_array (shared w)))%nat ->
  Forall (fun i => i <> -1) front ->
  Forall2 (fun i r => replay_episode ds (select_demos args ds) env args i = Ok r)
          front recs ->
  (length front < fuel)%nat ->
  extract_multiple_trajectories create_env fuel ds args p w
  = Returns tt
      (mkWorld (mkShared [] (<[p := wrap32 l]> (current_work_array (shared w))))
               (mul_queue w ++ map (fun r => (fst r, snd r, p)) recs)
               (S (envs_created w))).
Proof.
  intros Hc Hq Hp Hn Hr Hf.
  unfold extract_multiple_trajectories, extract_multiple_trajectories_with_error.
  rewrite Hc. cbn [shared mul_queue envs_created].
  destruct (front ++ [l]) as [|i rest] eqn:Hfl; [destruct front; discriminate|].
  rewrite (retrieve_new_index_pop p (shared w) i rest Hq Hp).
  destruct (worker_loop_all_but_last ds (select_demos args ds) args p env rest i front l recs
              (mkWorld (mkShared rest (<[p := wrap32 i]> (current_work_array (shared w))))
                       (mul_queue w) (S (envs_created w))) fuel)
    as (a & Hrun & Ha); simpl; try assumption.
  - now symmetry.
  - reflexivity.
  - now rewrite length_insert.
  - apply (f_equal length) in Hfl. rewrite length_app in Hfl. simpl in Hfl. lia.
  - rewrite Hrun. f_equal. f_equal. f_equal. rewrite Ha.
    destruct rest as [|j rest'].
    + destruct front; [|destruct front; discriminate]. simpl in Hfl.
      now injection Hfl as ->.
    + simpl. now rewrite list_insert_insert_eq.
Qed.

(** X10: when every replay succeeds, a worker that finds the indices
    [front ++ [l]] in the queue returns after it has enqueued the records of
    [front], in order: the queue is empty, index [l] is in the worker's slot,
    and there is no record of it. *)
Theorem worker_completes_all_but_last fuel ds args p env front l recs
    (w : @World State Action Reward Sensor Info) :
  create_env (envs_created w) = Ok env ->
  work_queue (shared w) = front ++ [l] ->
  (p < length (current_work_array (shared w)))%nat ->
  Forall (fun i => i <> -1) front ->
  Forall2 (fun i r => replay_episode ds (select_demos args ds) env args i = Ok r)
          front recs ->
  (length front < fuel)%nat ->
  extract_multiple_trajectories create_env fuel ds args p w
  = Returns tt
      (mkWorld (mkShared [] (<[p := wrap32 l]> (current_work_array (shared w))))
               (mul_queue w ++ map (fun r => (fst r, snd r, p)) recs)
               (S (envs_created w))).
Proof. apply worker_run_all_but_last. Qed.

Lemma replay_short_episode_fails ds demos env args ind ep e :
  py_getitem demos ind = Ok ep ->
  dict_get ep (ds_data ds) = Ok e ->
  (length (ep_states e) < traj_len)%nat ->
  exists x, replay_episode ds demos (env : @Env State Action Reward Sensor Info) args ind
            = Raise x.
Proof.
  intros Hep He Hlen.
  destruct (replay_episode ds demos env args ind) as [[ep' traj]|x] eqn:H; [|eauto].
  exfalso. unfold replay_episode in H. rewrite Hep in H. cbn [obind] in H.
  rewrite He in H. cbn [obind] in H.
  apply obind_Ok in H as (s0 & _ & H).
  apply obind_Ok in H as (model & _ & H).
  apply obind_Ok in H as (traj0 & Ht & _).
  apply extract_trajectory_counts in Ht as (_ & _ & _ & _ & Hle). lia.
Qed.

(** X11: a recorded episode with fewer than [traj_len] states cannot be replayed
    by any environment; while other indices wait in the queue and
    environments can be created, the worker that holds its index retries it
    without end: no bound on the number of passes lets the loop return. *)
Theorem short_episode_is_retried_forever ds demos args p env ind ep e
    (w : @World State Action Reward Sensor Info) :
  (forall k, exists env', create_env k = Ok env') ->
  py_getitem demos ind = Ok ep ->
  dict_get ep (ds_data ds) = Ok e ->
  (length (ep_states e) < traj_len)%nat ->
  work_queue (shared w) <> [] ->
  ind <> -1 ->
  forall fuel, worker_loop create_env fuel ds demos args p env ind w = OutOfFuel.
Proof.
  intros Hc Hep He Hlen Hq Hi fuel. revert env w Hq.
  induction fuel as [|fuel IH]; intros env w Hq; [reflexivity|].
  cbn [worker_loop]. rewrite bool_decide_eq_false_2 by exact Hq.
  destruct (Z.eqb_spec ind (-1)) as [?|_]; [contradiction|]. cbn [negb andb].
  destruct (replay_short_episode_fails ds demos env args ind ep e Hep He Hlen) as [x Hx].
  unfold loop_body. rewrite (try_block_replay_fails _ _ _ _ _ _ _ _ Hx).
  destruct (Hc (envs_created w)) as [env' ->]. apply IH. exact Hq.
Qed.

End WorkerRuns.

(** ** The driver *)

Section DriverFurther.

Context {State Action Reward Sensor Info : Type} `{!Indexable State}.
Variable create_env : nat -> outcome (@Env State Action Reward Sensor Info).

(** X12: when every replay succeeds, the driver enqueues the records of all the
    selected episodes but the last one, in order, and returns without an
    output file; the index of the last episode stays in the slot of worker 0. *)
Theorem driver_replays_all_but_last_episode fuel args ds persisted env n recs :
  create_env 0%nat = Ok env ->
  (0 < arg_num_procs args)%nat ->
  length (select_demos args ds) = S n ->
  Forall2 (fun i r => replay_episode ds (select_demos args ds) env args i = Ok r)
          (map Z.of_nat (seq 0 n)) recs ->
  (n < fuel)%nat ->
  dataset_states_to_obs_multiprocessing create_env fuel args ds persisted
  = Returns None
      (mkWorld (mkShared [] (<[0%nat := wrap32 (Z.of_nat n)]>
                               (replicate (arg_num_procs args) 0)))
               (persisted ++ map (fun r => (fst r, snd r, 0%nat)) recs)
               1).
Proof.
  intros Hc Hp Hlen Hr Hf. unfold dataset_states_to_obs_multiprocessing.
  rewrite Hlen.
  rewrite (worker_run_all_but_last create_env fuel ds args 0%nat env
             (map Z.of_nat (seq 0 n)) (Z.of_nat n) recs);
    cbn [shared work_queue current_work_array mul_queue envs_created]; try assumption.
  - reflexivity.
  - rewrite seq_S, map_app. reflexivity.
  - now rewrite length_replicate.
  - apply Forall_forall. intros i Hi. apply list_elem_of_fmap in Hi as (k & -> & _). lia.
  - now rewrite length_map, length_seq.
Qed.

(** X13: when the first environment cannot be created, no index has been claimed,
    and the handler still appends the content of the slot of worker 0, which
    is 0: the driver returns with index 0 twice in the work queue. *)
Theorem driver_requeues_unclaimed_index fuel args ds persisted e :
  create_env 0%nat = Raise e ->
  (0 < arg_num_procs args)%nat ->
  dataset_states_to_obs_multiprocessing create_env fuel args ds persisted
  = Returns None
      (mkWorld (mkShared (map Z.of_nat (seq 0 (length (select_demos args ds))) ++ [0])
                         (replicate (arg_num_procs args) 0))
               persisted 0).
Proof.
  intros Hc Hp. unfold dataset_states_to_obs_multiprocessing,
    extract_multiple_trajectories, extract_multiple_trajectories_with_error.
  simpl. rewrite Hc. simpl.
  destruct (arg_num_procs args) as [|k]; [lia|]. reflexivity.
Qed.

(** X14: with [num_procs = 0] the assignment array has no slot: the first claim
    takes index 0 from the queue and raises [IndexError], the handler raises
    it again, and the exception leaves the driver. *)
Theorem driver_without_slots_raises fuel args ds persisted env n :
  create_env 0%nat = Ok env ->
  arg_num_procs args = 0%nat ->
  length (select_demos args ds) = S n ->
  dataset_states_to_obs_multiprocessing create_env fuel args ds persisted
  = Raises IndexError
      (mkWorld (mkShared (map Z.of_nat (seq 1 n)) []) persisted 1).
Proof.
  intros Hc Hp Hlen. unfold dataset_states_to_obs_multiprocessing,
    extract_multiple_trajectories, extract_multiple_trajectories_with_error.
  rewrite Hlen, Hp. simpl. rewrite Hc. simpl. reflexivity.
Qed.

End DriverFurther.

(** ** The writer *)

Section WriterFurther.

Context {State Action Reward Sensor Info : Type} `{!Indexable State}.

Lemma create_dataset_name name p (g g' : @Group State Action Reward Sensor Info) :
  create_dataset name p g = Ok g' -> g_name g' = g_name g.
Proof.
  unfold create_dataset. destruct (bool_decide _); [discriminate|].
  intros H. now injection H as <-.
Qed.

Lemma create_datasets_name l (g g' : @Group State Action Reward Sensor Info) :
  create_datasets l g = Ok g' -> g_name g' = g_name g.
Proof.
  revert g. induction l as [|[name p] l IH]; intros g H; simpl in H.
  - now injection H as <-.
  - apply obind_Ok in H as (g1 & H1 & H). rewrite (IH _ H).
    now apply create_dataset_name in H1.
Qed.

Lemma write_obs_name args o (g g' : @Group State Action Reward Sensor Info) :
  write_obs args o g = Ok g' -> g_name g' = g_name g.
Proof.
  revert g. induction o as [|[k c] o IH]; intros g H; simpl in H.
  - now injection H as <-.
  - apply obind_Ok in H as (g1 & H1 & H). rewrite (IH _ H).
    destruct c as [vs|d]; simpl in H1.
    + apply obind_Ok in H1 as (g2 & H2 & H1).
      destruct (arg_include_next_obs args); [discriminate|]. injection H1 as <-.
      now apply create_dataset_name in H2.
    + now apply create_datasets_name in H1.
Qed.

Lemma write_datasets_name args (ds : @Dataset State Action Reward) groups ep
    (traj : @Traj State Action Reward Sensor Info) g :
  write_datasets args ds groups ep traj = Ok g ->
  g_name g = ep /\ (ep ∉ map g_name groups).
Proof.
  unfold write_datasets. intros H.
  destruct (bool_decide (ep ∈ map g_name groups)) eqn:Hin; [discriminate|].
  apply bool_decide_eq_false in Hin.
  apply obind_Ok in H as (g1 & H1 & H). apply create_dataset_name in H1.
  apply obind_Ok in H as (g2 & H2 & H).
  assert (Hn2 : g_name g2 = g_name g1).
  { destruct (arg_global_actions args); [|now injection H2 as <-].
    apply obind_Ok in H2 as (ga & _ & H2). now apply create_dataset_name in H2. }
  apply obind_Ok in H as (g3 & H3 & H). apply create_dataset_name in H3.
  apply obind_Ok in H as (g4 & H4 & H). apply create_dataset_name in H4.
  apply obind_Ok in H as (g5 & H5 & H). apply create_dataset_name in H5.
  apply obind_Ok in H as (g6 & H6 & H). apply write_obs_name in H6.
  apply obind_Ok in H as (g7 & H7 & H). apply create_datasets_name in H7.
  assert (Hn8 : g_name g = g_name g7).
  { destruct (dict_get ep (ds_data ds)) as [[? ? ? ? ? ? [ad|]]|].
    - now apply create_datasets_name in H.
    - now injection H as <-.
    - now injection H as <-. }
  split; [|exact Hin].
  rewrite Hn8, H7, H6, H5, H4, H3, Hn2, H1. reflexivity.
Qed.

(** The group written for a record carries the key of the record, which no
    earlier group carries, and the number of actions of the record. *)
Lemma write_group_inv args (ds : @Dataset State Action Reward) groups ep
    (traj : @Traj State Action Reward Sensor Info) g n :
  write_group args ds groups ep traj = Ok (g, n) ->
  g_name g = ep /\ (ep ∉ map g_name groups)
  /\ n = length (actions traj) /\ g_num_samples g = Some (length (actions traj)).
Proof.
  unfold write_group. intros H.
  apply obind_Ok in H as (g0 & H0 & H).
  apply write_datasets_name in H0 as [Hname Hfresh].
  repeat (apply obind_Ok in H as (? & _ & H)).
  injection H as <- <-. simpl. repeat split; assumption.
Qed.

(** X16: as soon as a record with an action is in play, the writer does not
    return: for an expected count of at least one and records that all hold
    an action, it ends waiting on the empty queue or on a failed write. *)
Theorem writer_never_returns_on_real_records args (ds : @Dataset State Action Reward)
    (q : list (@Item State Action Reward Sensor Info)) total_samples :
  (0 < total_samples)%nat ->
  Forall (fun it => actions (snd (fst it)) <> []) q ->
  forall out received remaining,
    write_traj_to_file args ds total_samples q <> Written out received remaining.
Proof.
  intros HT Hq out received remaining. unfold write_traj_to_file.
  pose proof (writer_loop_bound_grows args ds q 0 total_samples [] HT Hq) as Hb.
  destruct (writer_loop args ds q 0 total_samples []); [contradiction | discriminate..].
Qed.

Lemma writer_loop_duplicate args (ds : @Dataset State Action Reward) ep t2 p2
    (q1 q2 : list (@Item State Action Reward Sensor Info)) :
  forall num_processed total_samples groups,
    (num_processed + length q1 < total_samples)%nat ->
    ep ∈ map (fun it => fst (fst it)) q1 \/ ep ∈ map g_name groups ->
    writer_loop args ds (q1 ++ (ep, t2, p2) :: q2) num_processed total_samples groups
    = Aborted (PyException "Write out to file has failed").
Proof.
  induction q1 as [|[[ep1 t1] p1] q1 IH]; intros np ts groups Hlt Hin; simpl in *.
  - destruct Hin as [Hin|Hin]; [now apply not_elem_of_nil in Hin|].
    destruct (Nat.ltb_spec np ts); [|lia].
    unfold write_group, write_datasets. now rewrite bool_decide_eq_true_2.
  - destruct (Nat.ltb_spec np ts); [|lia].
    destruct (write_group args ds groups ep1 t1) as [[g n]|] eqn:Hw; [|reflexivity].
    apply write_group_inv in Hw as (Hname & _).
    apply IH; [lia|]. rewrite map_app, elem_of_app. simpl.
    destruct Hin as [Hin|Hin]; [|auto].
    apply elem_of_cons in Hin as [->|Hin]; [|auto].
    right. right. rewrite Hname. left.
Qed.

(** X17: a second record under an episode key that an earlier record of the queue
    carries makes the writer fail, whatever comes before it, as long as the
    expected count lets the loop reach it. *)
Theorem duplicate_episode_aborts_writer args (ds : @Dataset State Action Reward) ep t2 p2
    (q1 q2 : list (@Item State Action Reward Sensor Info)) total_samples :
  ep ∈ map (fun it => fst (fst it)) q1 ->
  (length q1 < total_samples)%nat ->
  write_traj_to_file args ds total_samples (q1 ++ (ep, t2, p2) :: q2)
  = Failed (PyException "Write out to file has failed").
Proof.
  intros Hin Hlt. unfold write_traj_to_file.
  rewrite writer_loop_duplicate; [reflexivity | simpl; lia | now left].
Qed.

Lemma write_obs_next_obs_fails args o k vs :
  arg_include_next_obs args = true ->
  (k, Column vs) ∈ o ->
  forall g : @Group State Action Reward Sensor Info, exists e, write_obs args o g = Raise e.
Proof.
  intros Hn. induction o as [|[k' c] o IH]; intros Hin g.
  - now apply not_elem_of_nil in Hin.
  - simpl. apply elem_of_cons in Hin as [Heq|Hin].
    + injection Heq as <- <-. simpl. rewrite Hn.
      destruct (create_dataset _ _ g); simpl; eauto.
    + destruct (write_obs_key args k' c g) as [g'|e]; simpl; eauto.
Qed.

(** X18: with [include_next_obs] no record that has a plain observation key can
    be written: the writer reads [traj["next_obs"]], which the extraction
    leaves empty. *)
Theorem include_next_obs_always_fails args (ds : @Dataset State Action Reward) groups ep
    (traj : @Traj State Action Reward Sensor Info) k vs :
  arg_include_next_obs args = true ->
  (k, Column vs) ∈ obs traj ->
  exists e, write_group args ds groups ep traj = Raise e.
Proof.
  intros Hn Hin. unfold write_group, write_datasets.
  destruct (bool_decide _); [eauto|].
  destruct (create_dataset "actions" _ _) as [g1|]; cbn [obind]; [|eauto].
  destruct (if arg_global_actions args then _ else _) as [g2|]; cbn [obind]; [|eauto].
  destruct (create_dataset "states" _ _) as [g3|]; cbn [obind]; [|eauto].
  destruct (create_dataset "rewards" _ _) as [g4|]; cbn [obind]; [|eauto].
  destruct (create_dataset "dones" _ _) as [g5|]; cbn [obind]; [|eauto].
  destruct (write_obs_next_obs_fails args (obs traj) k vs Hn Hin g5) as [e ->].
  cbn [obind]. eauto.
Qed.

Lemma replay_episode_model ds demos (env : @Env State Action Reward Sensor Info)
    args ind ep traj :
  replay_episode ds demos env args ind = Ok (ep, traj) ->
  exists model, sd_model (initial_state_dict traj) = Some (UArray model).
Proof.
  unfold replay_episode. intros H.
  apply obind_Ok in H as (ep0 & _ & H).
  apply obind_Ok in H as (e & _ & H).
  apply obind_Ok in H as (s0 & _ & H).
  apply obind_Ok in H as (model & _ & H).
  apply obind_Ok in H as (traj0 & Ht & H).
  apply extraction_turns_strings_into_arrays in Ht as (_ & _ & _ & _ & _ & Hm).
  cbn [sd_model] in Hm.
  apply obind_Ok in H as (traj1 & H1 & H).
  apply obind_Ok in H as (traj2 & H2 & H).
  injection H as _ <-. exists model.
  assert (E1 : initial_state_dict traj1 = initial_state_dict traj0).
  { destruct (arg_copy_rewards args); [|now injection H1 as <-].
    apply obind_Ok in H1 as (r & _ & H1). now injection H1 as <-. }
  assert (E2 : initial_state_dict traj2 = initial_state_dict traj1).
  { destruct (arg_copy_dones args); [|now injection H2 as <-].
    apply obind_Ok in H2 as (d & _ & H2). now injection H2 as <-. }
  rewrite E2, E1. exact Hm.
Qed.

(** X28: no record that the worker makes can be written.  The model of the
    record is an array of dtype [<U], which the attribute [model_file] does
    not take: whatever the options, the archive and the groups written so
    far, the write of the record fails, and a writer that finds the record
    at the head of the queue ends with [Write out to file has failed]. *)
Theorem worker_record_aborts_writer ds demos (env : @Env State Action Reward Sensor Info)
    args ind ep traj :
  replay_episode ds demos env args ind = Ok (ep, traj) ->
  forall args' (ds' : @Dataset State Action Reward) groups ep',
    (exists e, write_group args' ds' groups ep' traj = Raise e)
    /\ forall pn q total_samples,
        (0 < total_samples)%nat ->
        write_traj_to_file args' ds' total_samples ((ep', traj, pn) :: q)
        = Failed (PyException "Write out to file has failed").
Proof.
  intros H args' ds' groups ep'.
  apply replay_episode_model in H as [model Hm].
  assert (Hw : forall gs, exists e, write_group args' ds' gs ep' traj = Raise e).
  { intros gs. unfold write_group.
    destruct (write_datasets args' ds' gs ep' traj) as [g|e]; cbn [obind]; [|eauto].
    rewrite Hm. cbn [from_attr obind attrs_set]. eauto. }
  split; [apply Hw|].
  intros pn q T HT. unfold write_traj_to_file.
  destruct (Hw []) as [e He].
  now rewrite (writer_loop_first_fails args' ds' ep' traj pn q 0 T [] e HT He).
Qed.

End WriterFurther.

Lemma worker_record_aborts_writer_witness :
  exists traj,
    replay_episode sample_dataset ["demo_0"; "demo_1"; "demo_2"] sample_env sample_args 0
    = Ok ("demo_0", traj)
    /\ write_group sample_args sample_dataset [] "demo_0" traj = Raise TypeError
    /\ write_traj_to_file sample_args sample_dataset 3 [("demo_0", traj, 0%nat)]
       = Failed (PyException "Write out to file has failed").
Proof.
  destruct (replay_episode sample_dataset ["demo_0"; "demo_1"; "demo_2"] sample_env
              sample_args 0) as [[ep traj]|e] eqn:H;
    [|vm_compute in H; discriminate H].
  assert (Hep : ep = "demo_0") by (vm_compute in H; now injection H as <- _).
  subst ep. exists traj. split; [reflexivity|].
  destruct (worker_record_aborts_writer _ _ _ _ _ _ _ H sample_args sample_dataset []
              "demo_0") as [_ Hf].
  split; [|apply Hf; lia].
  vm_compute in H. injection H as <-. vm_compute. reflexivity.
Defined.

(** ** [postprocess_model_xml]: errors, frame and paths *)

Lemma update_first_total {A : Type} (u : A -> option (outcome A)) (l : list A) :
  (forall a r, u a = Some r -> exists a', r = Ok a') ->
  update_first u l = None \/ exists l', update_first u l = Some (Ok l').
Proof.
  intros Hu. induction l as [|a l IH]; simpl; [now left|].
  destruct (u a) as [r|] eqn:Ha.
  - destruct (Hu a r Ha) as [a' ->]. right. eauto.
  - destruct IH as [->|[l' ->]]; [now left | right; eauto].
Qed.

Lemma update_first_frame {A : Type} (u : A -> option (outcome A)) (l l' : list A) :
  update_first u l = Some (Ok l') ->
  exists l1 a a' l2,
    l = l1 ++ a :: l2 /\ l' = l1 ++ a' :: l2
    /\ Forall (fun x => u x = None) l1 /\ u a = Some (Ok a').
Proof.
  revert l'. induction l as [|x l IH]; intros l' H; simpl in H; [discriminate|].
  destruct (u x) as [[x'|e]|] eqn:Hx; try discriminate.
  - injection H as <-. exists [], x, x', l. repeat split; auto.
  - destruct (update_first u l) as [[r|e]|]; try discriminate.
    injection H as <-. destruct (IH r eq_refl) as (l1 & a & a' & l2 & -> & -> & Hf & Ha).
    exists (x :: l1), a, a', l2. repeat split; auto.
Qed.

Lemma update_asset_none (f : list element -> outcome (list element)) (root : element) :
  find "asset" root = None -> update_asset f root = Raise AttributeError.
Proof.
  unfold find, update_asset. intros H.
  assert (Hu : update_first
                 (fun e => if decide (tag e = "asset")
                           then Some (let* c := f (children e) in
                                      Ok (Element (tag e) (attrib e) c))
                           else None) (children root) = None).
  { induction (children root) as [|a l IH]; simpl in *; [reflexivity|].
    unfold has_tag in H. destruct (decide (tag a = "asset")); [discriminate|].
    now rewrite IH. }
  now rewrite Hu.
Qed.

(** The change made by [update_asset]: the first child tagged [asset] gets
    new children, and nothing else of the root moves. *)
Lemma update_asset_frame (f : list element -> outcome (list element)) (root root' : element) :
  update_asset f root = Ok root' ->
  exists l1 a c l2,
    children root = l1 ++ a :: l2
    /\ Forall (fun x => tag x <> "asset") l1
    /\ tag a = "asset"
    /\ f (children a) = Ok c
    /\ root' = Element (tag root) (attrib root) (l1 ++ Element (tag a) (attrib a) c :: l2).
Proof.
  unfold update_asset. intros H.
  destruct (update_first _ (children root)) as [[c|x]|] eqn:Hu; try discriminate.
  simpl in H. injection H as <-.
  apply update_first_frame in Hu as (l1 & a & a' & l2 & Hl & -> & Hf & Ha).
  destruct (decide (tag a = "asset")) as [Ht|]; [|discriminate].
  destruct (f (children a)) as [c'|] eqn:Hc; simpl in Ha; [|discriminate].
  injection Ha as <-. exists l1, a, c', l2. repeat split; auto.
  eapply Forall_impl; [exact Hf|]. intros x Hx. simpl in Hx.
  destruct (decide (tag x = "asset")); [discriminate | assumption].
Qed.

Lemma update_asset_ok (f : list element -> outcome (list element)) (root asset : element) c :
  find "asset" root = Some asset ->
  f (children asset) = Ok c ->
  exists root', update_asset f root = Ok root'.
Proof.
  unfold find, update_asset. intros Hf Hc.
  assert (Hu : exists l', update_first
                 (fun e => if decide (tag e = "asset")
                           then Some (let* c := f (children e) in
                                      Ok (Element (tag e) (attrib e) c))
                           else None) (children root) = Some (Ok l')).
  { induction (children root) as [|a l IH]; simpl in *; [discriminate|].
    unfold has_tag in Hf. destruct (decide (tag a = "asset")).
    - injection Hf as ->. rewrite Hc. simpl. eauto.
    - destruct (IH Hf) as [l' ->]. eauto. }
  destruct Hu as [l' ->]. simpl. eauto.
Qed.

(** X19: [postprocess_model_xml] raises [AttributeError] exactly when the root
    has no [asset] child, and returns a tree otherwise. *)
Theorem postprocess_fails_iff_no_asset (rs zoo : string) (root : element) :
  (find "asset" root = None <-> postprocess_model_xml rs zoo root = Raise AttributeError)
  /\ (is_Some (find "asset" root) <-> exists root', postprocess_model_xml rs zoo root = Ok root').
Proof.
  unfold postprocess_model_xml.
  destruct (find "asset" root) as [asset|] eqn:Hf.
  - destruct (update_asset_ok
                (fun cs => Ok (map (fun c => if is_mesh_or_texture c
                                             then postprocess_elem rs zoo c else c) cs))
                root asset _ Hf eq_refl) as [root' Hr].
    rewrite Hr. split; split; try discriminate; eauto.
  - rewrite (update_asset_none _ root Hf).
    split; split; auto; try discriminate.
    + intros [x Hx]. discriminate.
    + intros [r Hr]. discriminate.
Qed.

(** X20: [postprocess_model_xml] changes the first [asset] child of the root and
    nothing else: the root keeps its tag, its attributes and its other
    children, and in the asset section every child keeps its tag, its
    children and every attribute but [file]. *)
Theorem postprocess_changes_first_asset_only (rs zoo : string) (root root' : element) :
  postprocess_model_xml rs zoo root = Ok root' ->
  exists l1 a a' l2,
    children root = l1 ++ a :: l2
    /\ Forall (fun x => tag x <> "asset") l1
    /\ tag a = "asset"
    /\ root' = Element (tag root) (attrib root) (l1 ++ a' :: l2)
    /\ tag a' = tag a /\ attrib a' = attrib a
    /\ Forall2 (fun e e' => tag e' = tag e /\ children e' = children e
                            /\ forall key, key <> "file" -> get key e' = get key e)
               (children a) (children a').
Proof.
  intros H. apply update_asset_frame in H as (l1 & a & c & l2 & Hl & Hf & Ht & Hc & ->).
  injection Hc as <-. exists l1, a. eexists. exists l2.
  repeat split; try eassumption; try reflexivity. simpl.
  apply Forall2_fmap_r, Forall_Forall2_diag, Forall_forall. intros e _. unfold compose.
  destruct (is_mesh_or_texture e); [|auto].
  split; [apply postprocess_elem_tag|]. split; [|intros key Hk; now apply postprocess_elem_get].
  unfold postprocess_elem. destruct (get "file" e); [|reflexivity]. cbv zeta.
  destruct (replace_prefix "robosuite" _ _), (replace_prefix "robosuite-model-zoo-dev" _ _);
    reflexivity.
Qed.

Lemma string_append_assoc (a b c : string) : (a +:+ b) +:+ c = a +:+ (b +:+ c).
Proof.
  induction a as [|x a IH]; [reflexivity|].
  change (String x ((a +:+ b) +:+ c) = String x (a +:+ (b +:+ c))).
  now rewrite IH.
Qed.

Lemma join_with_app (sep : ascii) (l1 l2 : list string) :
  l1 <> [] -> l2 <> [] ->
  join_with sep (l1 ++ l2) = join_with sep l1 +:+ String sep (join_with sep l2).
Proof.
  intros H1 H2. induction l1 as [|a l1 IH]; [contradiction|].
  destruct l1 as [|b l1].
  - simpl. destruct l2; [contradiction | reflexivity].
  - change (join_with sep ((a :: b :: l1) ++ l2))
      with (a +:+ String sep (join_with sep ((b :: l1) ++ l2))).
    rewrite IH by discriminate.
    change (join_with sep (a :: b :: l1)) with (a +:+ String sep (join_with sep (b :: l1))).
    now rewrite string_append_assoc.
Qed.

(** X21: in a path [.../robosuite/rest] without the component of the model zoo,
    the part up to the last [robosuite] gives way to the directory of the
    installed package, and [/rest] stays as it is, character by character. *)
Theorem robosuite_prefix_replaced_suffix_kept (rs zoo : string) (e : element)
    (old_path : string) (pre suf : list string) :
  is_mesh_or_texture e = true ->
  get "file" e = Some old_path ->
  split_slash old_path = pre ++ "robosuite" :: suf ->
  "robosuite" ∉ suf ->
  "robosuite-model-zoo-dev" ∉ split_slash old_path ->
  suf <> [] ->
  old_path = join_slash (pre ++ ["robosuite"]) +:+ "/" +:+ join_slash suf
  /\ get "file" (postprocess_elem rs zoo e) = Some (rs +:+ "/" +:+ join_slash suf).
Proof.
  intros Hmt Hfile Hsplit Hsuf Hzoo Hne. split.
  - rewrite <- (join_split_slash old_path), Hsplit. unfold join_slash.
    change ("robosuite" :: suf) with (["robosuite"] ++ suf). rewrite app_assoc.
    apply join_with_app; [|exact Hne]. destruct pre; discriminate.
  - destruct (postprocess_elem_spec rs zoo e Hmt) as [_ H]. specialize (H Hmt).
    rewrite Hfile in H. cbv zeta in H. destruct H as (_ & H & _).
    rewrite (H Hzoo pre suf Hsplit Hsuf), get_set_eq. f_equal. unfold join_slash.
    rewrite join_with_app; [|apply split_on_nonempty | exact Hne].
    change (join_with "/" (split_slash rs)) with (join_slash (split_slash rs)).
    now rewrite join_split_slash.
Qed.

(** ** The constructor of [MJCFObject]: when it succeeds, what it keeps *)

Lemma omap_ok {A B : Type} (f : A -> outcome B) (l : list A) :
  Forall (fun a => exists b, f a = Ok b) l -> exists r, omap f l = Ok r.
Proof.
  induction 1 as [|a l [b Hb] _ [r Hr]]; simpl; [eauto|].
  rewrite Hb, Hr. simpl. eauto.
Qed.

Section UpdateFirstConverse.

Context {A B : Type}.
Variable u : A -> option (outcome A).
Variable s : A -> option B.
Variable G : B -> Prop.
Hypothesis none_none : forall a, s a = None -> u a = None.
Hypothesis some_ok : forall a x, s a = Some x -> G x -> exists a', u a = Some (Ok a').

Lemma first_some_none_update (l : list A) :
  first_some s l = None -> update_first u l = None.
Proof.
  induction l as [|a l IH]; simpl; [reflexivity|].
  destruct (s a) eqn:Ha; [discriminate|]. intros H.
  now rewrite (none_none a Ha), (IH H).
Qed.

Lemma update_first_ok (l : list A) (t : B) :
  first_some s l = Some t -> G t -> exists l', update_first u l = Some (Ok l').
Proof.
  intros H Ht. induction l as [|a l IH]; simpl in *; [discriminate|].
  destruct (s a) as [x|] eqn:Ha.
  - injection H as ->. destruct (some_ok a t Ha Ht) as [a' ->]. eauto.
  - rewrite (none_none a Ha). destruct (IH H) as [l' ->]. eauto.
Qed.

End UpdateFirstConverse.

Lemma descend_none_update {B : Type} (t : string) (u : element -> option (outcome element))
    (s : element -> option B) (e : element) :
  (forall a, s a = None -> u a = None) ->
  descend t s e = None -> descend_update t u e = None.
Proof.
  intros Hn. unfold descend, descend_update.
  destruct (decide (tag e = t)); [|reflexivity].
  intros H. now rewrite (first_some_none_update u s Hn).
Qed.

Lemma descend_update_ok {B : Type} (t : string) (u : element -> option (outcome element))
    (s : element -> option B) (G : B -> Prop) (e : element) (x : B) :
  (forall a, s a = None -> u a = None) ->
  (forall a y, s a = Some y -> G y -> exists a', u a = Some (Ok a')) ->
  descend t s e = Some x -> G x -> exists e', descend_update t u e = Some (Ok e').
Proof.
  intros Hn Hs. unfold descend, descend_update.
  destruct (decide (tag e = t)); [|discriminate].
  intros H Hx. destruct (update_first_ok u s G Hn Hs _ _ H Hx) as [l' ->]. eauto.
Qed.

Section MJCFObjectFurther.

Context {R : Type}.
Variable mul : R -> R -> R.
Variable string_to_array : string -> outcome (list R).
Variable array_to_string : list R -> string.
Variables robosuite_path robosuite_model_zoo_path : string.

Local Abbreviation scale_site := (scale_site mul string_to_array array_to_string).
Local Abbreviation scale_mesh := (scale_mesh mul string_to_array array_to_string).
Local Abbreviation update_site := (update_site mul string_to_array array_to_string).
Local Abbreviation update_sites := (update_sites mul string_to_array array_to_string).
Local Abbreviation site_update := (site_update mul string_to_array array_to_string).

Lemma is_site_none_update (n : string) (s : list R) (a : element) :
  is_site n a = None -> site_update n s a = None.
Proof.
  unfold site_update, is_site.
  destruct (decide (tag a = "site" /\ get "name" a = Some n)); [discriminate | reflexivity].
Qed.

Lemma update_site_ok (s : list R) (root site : element) (n : string) :
  find_site n root = Some site ->
  (exists site', scale_site s site = Ok site') ->
  exists root', update_site s root n = Ok root'.
Proof.
  unfold find_site, update_site. intros Hf Hs.
  pose (G := fun x => exists x', scale_site s x = Ok x').
  destruct (update_first_ok
              (descend_update "worldbody" (descend_update "body" (site_update n s)))
              (descend "worldbody" (descend "body" (is_site n))) G)
    with (3 := Hf) as [l' ->].
  - intros a. apply descend_none_update. intros b. apply descend_none_update.
    intros c. apply is_site_none_update.
  - intros a y. apply (descend_update_ok _ _ _ G).
    + intros b. apply descend_none_update. intros c. apply is_site_none_update.
    + intros b z. apply (descend_update_ok _ _ _ G).
      * intros c. apply is_site_none_update.
      * intros c v Hc [v' Hv]. unfold is_site in Hc. unfold site_update.
        destruct (decide (tag c = "site" /\ get "name" c = Some n)); [|discriminate].
        injection Hc as ->. rewrite Hv. eauto.
  - exact Hs.
  - simpl. eauto.
Qed.

Lemma update_sites_ok (s : list R) (names : list string) (root : element) :
  NoDup names ->
  (forall n, n ∈ names ->
     exists site site', find_site n root = Some site /\ scale_site s site = Ok site') ->
  exists root', update_sites s root names = Ok root'.
Proof.
  intros Hnd. revert root. induction names as [|n names IH]; intros root H; simpl; [eauto|].
  apply NoDup_cons in Hnd as [Hn Hnd].
  destruct (H n) as (site & site' & Hf & Hs); [left|].
  destruct (update_site_ok s root site n Hf) as [root1 H1]; [eauto|].
  rewrite H1. simpl. apply IH; [exact Hnd|].
  intros m Hm. destruct (H m) as (sm & sm' & Hfm & Hsm); [now right|].
  exists sm, sm'. split; [|exact Hsm].
  rewrite <- Hfm. apply (update_site_other mul string_to_array array_to_string s root root1 n m);
    [|exact H1].
  intros ->. contradiction.
Qed.

(** X22: the constructor succeeds when the scale is well formed, the root has an
    asset section whose meshes carry no scale or one that can be multiplied
    by the requested scale, and each of the three sites is there with a
    [pos] that can be multiplied by the requested scale. *)
Theorem init_succeeds (scale : scale_arg) (root asset : element) (s : list R) :
  get_scale scale = Ok s ->
  find "asset" root = Some asset ->
  (forall m existing_scale,
      m ∈ findall "mesh" asset -> get "scale" m = Some existing_scale ->
      exists a p, string_to_array existing_scale = Ok a /\ np_mul mul a s = Ok p) ->
  (forall n, n ∈ ["bottom_site"; "top_site"; "horizontal_radius_site"] ->
      exists site pos a p,
        find_site n root = Some site /\ get "pos" site = Some pos
        /\ string_to_array pos = Ok a /\ np_mul mul s a = Ok p) ->
  exists root',
    MJCFObject_init mul string_to_array array_to_string robosuite_path
                    robosuite_model_zoo_path scale root = Ok root'.
Proof.
  intros Hs Ha Hm Hsites. unfold MJCFObject_init. rewrite Hs. cbn [obind].
  destruct (omap_ok (fun c => if decide (tag c = "mesh") then scale_mesh s c else Ok c)
                    (children asset)) as [c1 Hc1].
  { apply Forall_forall. intros c Hc. destruct (decide (tag c = "mesh")) as [Ht|]; [|eauto].
    unfold scale_mesh.
    destruct (get "scale" c) as [ex|] eqn:Hex; [|simpl; eauto].
    destruct (Hm c ex) as (a & p & Hp1 & Hp2); [|exact Hex|].
    - unfold findall. apply list_elem_of_filter. auto.
    - rewrite Hp1. cbn [obind]. rewrite Hp2. simpl. eauto. }
  destruct (update_asset_ok _ root asset c1 Ha Hc1) as [root1 H1].
  rewrite H1. cbn [obind].
  destruct (update_sites_ok s ["bottom_site"; "top_site"; "horizontal_radius_site"] root1)
    as [root2 H2].
  - compute_done.
  - intros n Hn. destruct (Hsites n Hn) as (site & pos & a & p & Hf & Hpos & Hp1 & Hp2).
    exists site. eexists. split.
    + rewrite <- Hf. now apply (update_asset_find_site _ _ _ n) in H1.
    + unfold scale_site. rewrite Hpos. cbn [obind].
      rewrite Hp1. cbn [obind]. rewrite Hp2. cbn [obind]. reflexivity.
  - rewrite H2. cbn [obind].
    apply update_sites_spec in H2 as (Ha2 & _); [|compute_done].
    destruct (update_asset_find _ _ _ H1) as (a0 & c0 & _ & _ & Ha1 & _).
    rewrite Ha1 in Ha2. unfold postprocess_model_xml.
    eapply update_asset_ok; [exact Ha2 | reflexivity].
Qed.

Lemma update_site_root (s : list R) (root root' : element) (n : string) :
  update_site s root n = Ok root' -> tag root' = tag root /\ attrib root' = attrib root.
Proof.
  unfold update_site.
  destruct (update_first _ (children root)) as [[c|x]|]; try discriminate.
  simpl. intros H. now injection H as <-.
Qed.

(** X23: the constructor leaves the tag and the attributes of the root and every
    site other than the three it scales as they are. *)
Theorem init_keeps_root_and_other_sites (scale : scale_arg) (root root' : element) :
  MJCFObject_init mul string_to_array array_to_string robosuite_path
                  robosuite_model_zoo_path scale root = Ok root' ->
  tag root' = tag root /\ attrib root' = attrib root
  /\ forall n, n ∉ ["bottom_site"; "top_site"; "horizontal_radius_site"] ->
       find_site n root' = find_site n root.
Proof.
  unfold MJCFObject_init. intros H.
  apply obind_Ok in H as (s & _ & H).
  apply obind_Ok in H as (root1 & H1 & H).
  apply obind_Ok in H as (root2 & H2 & H3).
  unfold postprocess_model_xml in H3.
  destruct (update_asset_find _ _ _ H1) as (_ & _ & _ & _ & _ & Ht1 & Ha1).
  destruct (update_asset_find _ _ _ H3) as (_ & _ & _ & _ & _ & Ht3 & Ha3).
  assert (Hroot : tag root2 = tag root1 /\ attrib root2 = attrib root1).
  { clear -H2. revert root1 H2.
    induction ["bottom_site"; "top_site"; "horizontal_radius_site"] as [|n names IH];
      intros root1 H2; simpl in H2.
    - now injection H2 as <-.
    - apply obind_Ok in H2 as (r & Hr & H2). apply update_site_root in Hr as [Ht Ha].
      destruct (IH r H2) as [Ht' Ha']. split; congruence. }
  destruct Hroot as [Ht2 Ha2].
  split; [congruence|]. split; [congruence|].
  intros n Hn.
  rewrite (update_asset_find_site _ _ _ n H3).
  apply update_sites_spec in H2 as (_ & Ho & _); [|compute_done].
  rewrite (Ho n Hn). apply (update_asset_find_site _ _ _ n H1).
Qed.

End MJCFObjectFurther.

(** ** The geoms of [MJCFObject] *)

Lemma attr_set_same (key value : string) (a : list (string * string)) :
  attr_get key a = Some value -> attr_set key value a = a.
Proof.
  induction a as [|[k v] a IH]; simpl; [discriminate|].
  destruct (decide (k = key)).
  - intros H. now injection H as ->.
  - intros H. now rewrite IH.
Qed.

Lemma set_same (key value : string) (e : element) :
  get key e = Some value -> set key value e = e.
Proof.
  destruct e as [t a c]. unfold get, set. simpl. intros H. now rewrite attr_set_same.
Qed.

Section GetGeomsProofs.

Context {R : Type}.
Variable array_to_string : list R -> string.
Variable str : R -> string.

Local Abbreviation modify_geom := (modify_geom array_to_string str).
Local Abbreviation get_geoms := (get_geoms array_to_string str).
Local Abbreviation geom_modified := (geom_modified array_to_string str).

Ltac get_set :=
  repeat (rewrite get_set_eq || rewrite get_set_ne by congruence).

Lemma modify_geom_spec (self : @MJCFObject R) (geom : element) :
  geom_modified self geom (modify_geom self geom).
Proof.
  unfold geom_modified, modify_geom.
  destruct (margin self) as [m|], (rgba self) as [c|], (priority self) as [n|];
    get_set;
    try (destruct (decide (get "group" geom = Some "1")));
    get_set; repeat split; try reflexivity;
    intros key Hk; repeat (apply not_elem_of_cons in Hk as [? Hk]); get_set; reflexivity.
Qed.

(** X24: every geom that [_get_geoms] returns has the solver parameters, the
    density and the friction of the object; the margin and the priority of
    the object when it has them; the colour of the object when it has one and
    the geom is of group 1; and its tag, its children and all its other
    attributes as before. *)
Theorem get_geoms_sets_material (self : @MJCFObject R) (geoms : list element) :
  Forall2 (geom_modified self) geoms (get_geoms self geoms).
Proof.
  unfold get_geoms.
  apply Forall2_fmap_r, Forall_Forall2_diag, Forall_forall.
  intros geom _. apply modify_geom_spec.
Qed.

Lemma modify_geom_idempotent (self : @MJCFObject R) (geom : element) :
  modify_geom self (modify_geom self geom) = modify_geom self geom.
Proof.
  destruct (modify_geom_spec self geom)
    as (H1 & H2 & H3 & H4 & H5 & H6 & H7 & _ & _ & Ho).
  assert (Hg : get "group" (modify_geom self geom) = get "group" geom).
  { apply Ho. compute_done. }
  set (g := modify_geom self geom) in *.
  unfold modify_geom.
  rewrite (set_same "solref" _ g H1), (set_same "solimp" _ g H2),
    (set_same "density" _ g H3), (set_same "friction" _ g H4).
  destruct (margin self) as [m|]; [rewrite (set_same "margin" _ g H5)|];
    (destruct (rgba self) as [c|];
     [rewrite Hg; destruct (decide (get "group" geom = Some "1"));
      [rewrite (set_same "rgba" _ g H6)|] |]);
    (destruct (priority self) as [pr|];
     [now rewrite (set_same "priority" _ g H7) | reflexivity]).
Qed.

(** X25: [_get_geoms] on geoms that it has already modified changes nothing. *)
Theorem get_geoms_idempotent (self : @MJCFObject R) (geoms : list element) :
  get_geoms self (get_geoms self geoms) = get_geoms self geoms.
Proof.
  unfold get_geoms. rewrite map_map.
  apply map_ext. intros geom. apply modify_geom_idempotent.
Qed.

End GetGeomsProofs.

(** * Instances of the further properties *)

Lemma extract_step_removes_keys_witness :
  exists o r d info,
    extract_step camera_env (seq 0 20) (seq 0 20) 0 no_image_args false 0
    = Ok (o, r, d, info)
    /\ o = filter (fun kv => removed no_image_args (fst kv) = false)
                  [("robot0_eef_pos", Leaf 0%nat); ("agentview_image", Leaf 0%nat);
                   ("agentview_depth", Leaf 0%nat)].
Proof.
  destruct (extract_step camera_env (seq 0 20) (seq 0 20) 0 no_image_args false 0)
    as [[[[o r] d] info]|e] eqn:H.
  - exists o, r, d, info. split; [reflexivity|].
    refine (proj1 (extract_step_removes_keys camera_env (seq 0 20) (seq 0 20) 0
                     no_image_args false 0%nat 0%nat _ o r d info eq_refl eq_refl _ H)).
    compute_done.
  - vm_compute in H. discriminate H.
Defined.

Lemma key_with_image_and_depth_raises_witness :
  extract_step odd_camera_env (seq 0 20) (seq 0 20) 0 no_camera_args false 0
  = Raise KeyError.
Proof.
  refine (key_with_image_and_depth_raises odd_camera_env (seq 0 20) (seq 0 20) 0
            no_camera_args false 0%nat 0%nat _ "agentview_depth_image"
            eq_refl eq_refl _ eq_refl eq_refl _ eq_refl eq_refl).
  - compute_done.
  - compute_done.
Defined.

Lemma worker_only_appends_own_records_witness :
  exists w',
    extract_multiple_trajectories flaky_sim 10 sample_dataset sample_args 0
      (sample_world [0; 1; 2]) = Returns tt w'
    /\ worker_keeps 0 (sample_world [0; 1; 2]) w'.
Proof.
  destruct (extract_multiple_trajectories flaky_sim 10 sample_dataset sample_args 0
              (sample_world [0; 1; 2])) as [[] w'|e w'|] eqn:H.
  - exists w'. split; [reflexivity|].
    exact (worker_only_appends_own_records _ _ _ _ _ _ _ H).
  - vm_compute in H. discriminate H.
  - vm_compute in H. discriminate H.
Defined.

Lemma wrapper_never_raises_witness :
  match extract_multiple_trajectories failing_sim 10 sample_dataset sample_args 0
          (sample_world [0; 1; 2]) with
  | Raises _ _ => False
  | _ => True
  end.
Proof.
  destruct (extract_multiple_trajectories failing_sim 10 sample_dataset sample_args 0
              (sample_world [0; 1; 2])) as [u w'|e w'|] eqn:H; [exact I| |exact I].
  refine (wrapper_never_raises failing_sim 10 sample_dataset sample_args 0%nat
            (sample_world [0; 1; 2]) _ e w' H).
  simpl. lia.
Defined.

Lemma worker_completes_all_but_last_witness :
  exists recs w',
    length recs = 2%nat
    /\ extract_multiple_trajectories sample_sim 10 sample_dataset sample_args 0
         (sample_world [0; 1; 2]) = Returns tt w'
    /\ mul_queue w' = map (fun r => (fst r, snd r, 0%nat)) recs
    /\ work_queue (shared w') = [].
Proof.
  destruct (replay_episode sample_dataset (select_demos sample_args sample_dataset)
              sample_env sample_args 0) as [r0|e0] eqn:H0;
    [|vm_compute in H0; discriminate H0].
  destruct (replay_episode sample_dataset (select_demos sample_args sample_dataset)
              sample_env sample_args 1) as [r1|e1] eqn:H1;
    [|vm_compute in H1; discriminate H1].
  exists [r0; r1]. eexists. split; [reflexivity|]. split.
  - apply (worker_completes_all_but_last sample_sim 10 sample_dataset sample_args 0%nat
             sample_env [0; 1] 2 [r0; r1] (sample_world [0; 1; 2])).
    + reflexivity.
    + reflexivity.
    + simpl. lia.
    + repeat constructor; lia.
    + repeat constructor; assumption.
    + simpl. lia.
  - split; reflexivity.
Defined.

Lemma short_episode_is_retried_forever_witness :
  worker_loop sample_sim 100 short_dataset ["demo_0"; "demo_1"] sample_args 0
              sample_env 0 (mkWorld (mkShared [1] [0]) [] 1) = OutOfFuel.
Proof.
  apply (short_episode_is_retried_forever sample_sim short_dataset ["demo_0"; "demo_1"]
           sample_args 0%nat sample_env 0 "demo_0" (sample_episode 5)).
  - intros k. exists sample_env. reflexivity.
  - reflexivity.
  - reflexivity.
  - simpl. unfold traj_len. lia.
  - simpl. discriminate.
  - lia.
Defined.

Lemma driver_replays_all_but_last_episode_witness :
  exists recs w',
    length recs = 2%nat
    /\ dataset_states_to_obs_multiprocessing sample_sim 10 sample_args sample_dataset []
       = Returns None w'
    /\ mul_queue w' = map (fun r => (fst r, snd r, 0%nat)) recs.
Proof.
  destruct (replay_episode sample_dataset (select_demos sample_args sample_dataset)
              sample_env sample_args 0) as [r0|e0] eqn:H0;
    [|vm_compute in H0; discriminate H0].
  destruct (replay_episode sample_dataset (select_demos sample_args sample_dataset)
              sample_env sample_args 1) as [r1|e1] eqn:H1;
    [|vm_compute in H1; discriminate H1].
  exists [r0; r1]. eexists. split; [reflexivity|]. split.
  - apply (driver_replays_all_but_last_episode sample_sim 10 sample_args sample_dataset []
             sample_env 2 [r0; r1]).
    + reflexivity.
    + simpl. lia.
    + reflexivity.
    + repeat constructor; assumption.
    + lia.
  - reflexivity.
Defined.

Lemma driver_requeues_unclaimed_index_witness :
  exists w',
    dataset_states_to_obs_multiprocessing
      (fun _ => Raise SimulatorError : outcome (@Env nat nat Z nat unit))
      10 sample_args sample_dataset [] = Returns None w'
    /\ work_queue (shared w') = [0; 1; 2; 0].
Proof.
  eexists. split.
  - apply (driver_requeues_unclaimed_index
             (fun _ => Raise SimulatorError : outcome (@Env nat nat Z nat unit))
             10 sample_args sample_dataset [] SimulatorError).
    + reflexivity.
    + simpl. lia.
  - reflexivity.
Defined.

Lemma driver_without_slots_raises_witness :
  exists w',
    dataset_states_to_obs_multiprocessing sample_sim 10 no_slot_args sample_dataset []
    = Raises IndexError w'
    /\ work_queue (shared w') = [1; 2].
Proof.
  eexists. split.
  - apply (driver_without_slots_raises sample_sim 10 no_slot_args sample_dataset []
             sample_env 2); reflexivity.
  - reflexivity.
Defined.

Lemma writer_never_returns_on_real_records_witness :
  match write_traj_to_file sample_args sample_dataset 1
          [("demo_0", two_step_traj, 0%nat)] with
  | Written _ _ _ => False
  | _ => True
  end.
Proof.
  destruct (write_traj_to_file sample_args sample_dataset 1
              [("demo_0", two_step_traj, 0%nat)]) as [out r rem|gs r t|e] eqn:H;
    [|exact I|exact I].
  refine (writer_never_returns_on_real_records sample_args sample_dataset
            [("demo_0", two_step_traj, 0%nat)] 1 _ _ out r rem H).
  - lia.
  - repeat constructor. simpl. discriminate.
Defined.

Lemma duplicate_episode_aborts_writer_witness :
  write_traj_to_file sample_args sample_dataset 2
    ([("demo_0", two_step_traj, 0%nat)] ++ [("demo_0", two_step_traj, 1%nat)])
  = Failed (PyException "Write out to file has failed").
Proof.
  apply duplicate_episode_aborts_writer.
  - simpl. left.
  - simpl. lia.
Defined.

Lemma include_next_obs_always_fails_witness :
  exists e, write_group next_obs_args sample_dataset [] "demo_0" two_step_traj = Raise e.
Proof.
  apply (include_next_obs_always_fails next_obs_args sample_dataset [] "demo_0"
           two_step_traj "robot0_eef_pos" [Leaf 0%nat; Leaf 1%nat]).
  - reflexivity.
  - simpl. left.
Defined.

Lemma postprocess_changes_first_asset_only_witness :
  exists root' l1 a a' l2,
    postprocess_model_xml "/opt/py/robosuite" "/opt/zoo/robosuite_model_zoo" sample_model
    = Ok root'
    /\ children sample_model = l1 ++ a :: l2
    /\ root' = Element (tag sample_model) (attrib sample_model) (l1 ++ a' :: l2).
Proof.
  destruct (postprocess_model_xml "/opt/py/robosuite" "/opt/zoo/robosuite_model_zoo"
              sample_model) as [root'|e] eqn:H.
  - destruct (postprocess_changes_first_asset_only _ _ _ _ H)
      as (l1 & a & a' & l2 & H1 & _ & _ & H4 & _).
    exists root', l1, a, a', l2. auto.
  - vm_compute in H. discriminate H.
Defined.

Lemma robosuite_prefix_replaced_suffix_kept_witness :
  get "file" (postprocess_elem "/opt/py/robosuite" "/opt/zoo/robosuite_model_zoo"
                               foreign_mesh)
  = Some "/opt/py/robosuite/models/can.obj".
Proof.
  refine (proj2 (robosuite_prefix_replaced_suffix_kept
                   "/opt/py/robosuite" "/opt/zoo/robosuite_model_zoo" foreign_mesh
                   "/data/robosuite/models/can.obj" [""; "data"] ["models"; "can.obj"]
                   eq_refl eq_refl eq_refl _ _ _)).
  - compute_done.
  - compute_done.
  - discriminate.
Defined.

Lemma init_succeeds_witness :
  exists root',
    MJCFObject_init Z.mul sample_string_to_array sample_array_to_string
                    "/opt/py/robosuite" "/opt/zoo/robosuite_model_zoo"
                    (ScaleFloat 2) sample_model = Ok root'.
Proof.
  eapply (init_succeeds Z.mul sample_string_to_array sample_array_to_string
            "/opt/py/robosuite" "/opt/zoo/robosuite_model_zoo"
            (ScaleFloat 2) sample_model _ [2; 2; 2]).
  - reflexivity.
  - reflexivity.
  - intros m ex Hm Hex. vm_compute in Hm.
    repeat (apply elem_of_cons in Hm as [->|Hm]);
      try (now apply not_elem_of_nil in Hm);
      vm_compute in Hex; try discriminate Hex.
    injection Hex as <-. exists [1; 2; 3], [2; 4; 6]. split; reflexivity.
  - intros n Hn.
    repeat (apply elem_of_cons in Hn as [->|Hn]);
      try (now apply not_elem_of_nil in Hn).
    + do 4 eexists. repeat split; vm_compute; reflexivity.
    + do 4 eexists. repeat split; vm_compute; reflexivity.
    + do 4 eexists. repeat split; vm_compute; reflexivity.
Defined.

Lemma init_keeps_root_and_other_sites_witness :
  exists root',
    MJCFObject_init Z.mul sample_string_to_array sample_array_to_string
                    "/opt/py/robosuite" "/opt/zoo/robosuite_model_zoo"
                    (ScaleFloat 2) sample_model = Ok root'
    /\ tag root' = "mujoco" /\ attrib root' = [("model", "can")].
Proof.
  destruct (MJCFObject_init Z.mul sample_string_to_array sample_array_to_string
              "/opt/py/robosuite" "/opt/zoo/robosuite_model_zoo"
              (ScaleFloat 2) sample_model) as [root'|e] eqn:H.
  - exists root'. split; [reflexivity|].
    destruct (init_keeps_root_and_other_sites _ _ _ _ _ _ _ _ H) as (Ht & Ha & _).
    split; assumption.
  - vm_compute in H. discriminate H.
Defined.

(** ** The path of the output file *)

Lemma has_slash_app (a b : string) : has_slash (a +:+ b) = has_slash a || has_slash b.
Proof.
  induction a as [|c a IH]; [reflexivity|].
  change (has_slash (String c (a +:+ b)) = has_slash (String c a) || has_slash b).
  simpl. rewrite IH. now rewrite orb_assoc.
Qed.

Lemma after_last_slash_app (dir file : string) :
  has_slash file = false -> after_last_slash (dir +:+ String "/" file) = file.
Proof.
  intros Hf. induction dir as [|c dir IH].
  - change (after_last_slash (String "/" file) = file). simpl. now rewrite Hf.
  - change (after_last_slash (String c (dir +:+ String "/" file)) = file). simpl.
    rewrite has_slash_app. simpl. rewrite orb_true_r. exact IH.
Qed.

Lemma upto_last_slash_app (dir file : string) :
  has_slash file = false -> upto_last_slash (dir +:+ String "/" file) = dir +:+ "/".
Proof.
  intros Hf. induction dir as [|c dir IH].
  - change (upto_last_slash (String "/" file) = "/"). simpl. now rewrite Hf.
  - change (upto_last_slash (String c (dir +:+ String "/" file)) = String c (dir +:+ "/")).
    simpl. rewrite has_slash_app. simpl. rewrite orb_true_r. now rewrite IH.
Qed.

Lemma rstrip_slash_app (s : string) : rstrip_slash (s +:+ "/") = rstrip_slash s.
Proof.
  induction s as [|c s IH]; [reflexivity|].
  change (rstrip_slash (String c (s +:+ "/")) = rstrip_slash (String c s)).
  simpl. now rewrite IH.
Qed.

Lemma all_slashes_app (s : string) : all_slashes (s +:+ "/") = all_slashes s.
Proof.
  induction s as [|c s IH]; [reflexivity|].
  change (all_slashes (String c (s +:+ "/")) = all_slashes (String c s)).
  simpl. now rewrite IH.
Qed.

Lemma all_slashes_rstrip (s : string) : all_slashes s = true -> rstrip_slash s = EmptyString.
Proof.
  induction s as [|c s IH]; [reflexivity|]. simpl.
  intros H. apply andb_true_iff in H as [Hc Hs]. now rewrite (IH Hs), Hc.
Qed.

Lemma rstrip_slash_fixed (s : string) :
  rstrip_slash s = s -> ends_with_slash s = false.
Proof.
  induction s as [|c s IH]; [reflexivity|]. intros H. simpl in H.
  destruct (rstrip_slash s) as [|c' r] eqn:Hr.
  - destruct (bool_decide (c = "/"%char)) eqn:Hc; [discriminate|].
    injection H as <-. simpl. exact Hc.
  - injection H as <-. specialize (IH eq_refl). simpl in *. exact IH.
Qed.

Lemma dirname_app (dir file : string) :
  has_slash file = false ->
  rstrip_slash dir = dir ->
  dirname (dir +:+ String "/" file)
  = if bool_decide (dir = EmptyString) then "/" else dir.
Proof.
  intros Hf Hd. unfold dirname. rewrite (upto_last_slash_app dir file Hf).
  destruct dir as [|c dir]; [reflexivity|].
  rewrite all_slashes_app.
  destruct (all_slashes (String c dir)) eqn:Ha.
  - apply all_slashes_rstrip in Ha. congruence.
  - rewrite rstrip_slash_app, Hd. reflexivity.
Qed.

Lemma path_join_dirname (dir file name : string) :
  has_slash file = false ->
  rstrip_slash dir = dir ->
  starts_with_slash name = false ->
  path_join (dirname (dir +:+ String "/" file)) name = dir +:+ "/" +:+ name.
Proof.
  intros Hf Hd Hn. rewrite (dirname_app dir file Hf Hd). unfold path_join. rewrite Hn.
  destruct dir as [|c dir]; [reflexivity|].
  rewrite !(bool_decide_eq_false_2 (String c dir = EmptyString)) by discriminate.
  rewrite (rstrip_slash_fixed _ Hd). reflexivity.
Qed.

Lemma substring_0_0 (s : string) : String.substring 0 0 s = EmptyString.
Proof. destruct s; reflexivity. Qed.

Lemma string_length_app (a b : string) :
  String.length (a +:+ b) = (String.length a + String.length b)%nat.
Proof.
  induction a as [|c a IH]; [reflexivity|].
  change (S (String.length (a +:+ b)) = S (String.length a + String.length b)).
  now rewrite IH.
Qed.

Lemma drop_last_five_ext (name ext : string) :
  String.length ext = 5%nat -> drop_last_five (name +:+ ext) = name.
Proof.
  intros He. unfold drop_last_five. induction name as [|c name IH].
  - change (EmptyString +:+ ext) with ext. rewrite He. apply substring_0_0.
  - change (String c name +:+ ext) with (String c (name +:+ ext)).
    assert (Hl : (5 <= String.length (name +:+ ext))%nat).
    { rewrite string_length_app. lia. }
    change (String.length (String c (name +:+ ext)))
      with (S (String.length (name +:+ ext))).
    replace (S (String.length (name +:+ ext)) - 5)%nat
      with (S (String.length (name +:+ ext) - 5)) by lia.
    simpl. now rewrite IH.
Qed.

Lemma starts_with_slash_stem (file suffix : string) :
  has_slash file = false ->
  starts_with_slash suffix = false ->
  starts_with_slash (drop_last_five file +:+ suffix) = false.
Proof.
  intros Hf Hs. unfold drop_last_five. destruct file as [|c file]; [exact Hs|].
  simpl in Hf. apply orb_false_iff in Hf as [Hc _].
  destruct (String.length (String c file) - 5)%nat; simpl; assumption.
Qed.

Section OutputPathProofs.

Variable str : Z -> string.

Lemma output_name_suffix_start cams w rc gt :
  starts_with_slash (output_name_suffix str cams w rc gt) = false.
Proof.
  unfold output_name_suffix. destruct (length cams =? 0)%nat, gt; reflexivity.
Qed.

(** X26: for an input [dir/name.hdf5] and no output name, the output is
    [dir/name] followed by the suffix that tells the observations apart: it
    lies beside the input.  An output name without a slash is placed beside
    the input as well. *)
Theorem output_path_beside_input (dir name : string) (cams : list string) (w : Z)
    (rc gt : bool) :
  has_slash name = false ->
  rstrip_slash dir = dir ->
  output_path str (dir +:+ "/" +:+ name +:+ ".hdf5") None cams w rc gt
  = dir +:+ "/" +:+ name +:+ output_name_suffix str cams w rc gt
  /\ forall o, has_slash o = false ->
       output_path str (dir +:+ "/" +:+ name +:+ ".hdf5") (Some o) cams w rc gt
       = dir +:+ "/" +:+ o.
Proof.
  intros Hn Hd.
  assert (Hf : has_slash (name +:+ ".hdf5") = false).
  { rewrite has_slash_app, Hn. reflexivity. }
  unfold output_path, basename.
  change (dir +:+ "/" +:+ name +:+ ".hdf5") with (dir +:+ String "/" (name +:+ ".hdf5")).
  split.
  - rewrite (after_last_slash_app dir _ Hf).
    rewrite path_join_dirname; try assumption.
    + now rewrite drop_last_five_ext.
    + apply starts_with_slash_stem; [exact Hf | apply output_name_suffix_start].
  - intros o Ho. apply path_join_dirname; try assumption.
    destruct o as [|c o]; [reflexivity|]. simpl in *.
    now apply orb_false_iff in Ho as [Ho _].
Qed.

(** X27: the stem is the name of the input without its last five characters,
    whatever they are: a name of at most five characters leaves an empty
    stem, so that the output of [dir/ab.h5] with no camera is
    [dir/_ld.hdf5]. *)
Theorem short_dataset_name_leaves_suffix_only (dir file : string) (w : Z) (rc gt : bool) :
  has_slash file = false ->
  rstrip_slash dir = dir ->
  (String.length file <= 5)%nat ->
  output_path str (dir +:+ "/" +:+ file) None [] w rc gt = dir +:+ "/_ld.hdf5".
Proof.
  intros Hf Hd Hl. unfold output_path, basename.
  change (dir +:+ "/" +:+ file) with (dir +:+ String "/" file).
  rewrite (after_last_slash_app dir _ Hf).
  assert (Hs : drop_last_five file = EmptyString).
  { unfold drop_last_five. replace (String.length file - 5)%nat with 0%nat by lia.
    apply substring_0_0. }
  rewrite Hs. apply path_join_dirname; try assumption. reflexivity.
Qed.

End OutputPathProofs.

Lemma output_path_beside_input_witness :
  output_path sample_string_of_int "/data/sets/PnPCounterToCab/demo.hdf5" None
              ["robot0_agentview_left"] 128 true false
  = "/data/sets/PnPCounterToCab/demo_im128_randcams.hdf5".
Proof.
  refine (proj1 (output_path_beside_input sample_string_of_int
                   "/data/sets/PnPCounterToCab" "demo" ["robot0_agentview_left"]
                   128 true false eq_refl eq_refl)).
Defined.

Lemma short_dataset_name_leaves_suffix_only_witness :
  output_path sample_string_of_int "/data/ab.h5" None [] 128 false false
  = "/data/_ld.hdf5".
Proof.
  refine (short_dataset_name_leaves_suffix_only sample_string_of_int "/data" "ab.h5"
            128 false false eq_refl eq_refl _).
  simpl. lia.
Defined.
